(** * val-2.js: the greeting-card page script

    A shallow embedding of [src/val-2.js] and the properties of its four
    parts: the text sequencer ([initTextFading]), the envelope click handler,
    the letter-stagger decorator and the audio trigger.

    - JavaScript strings are lists of UTF-16 code units.
    - JavaScript numbers that the script computes with in earnest (the
      animation delay, the scroll metrics) are binary64 floats.
    - Timer delays and the clock are integers (milliseconds).
    - The DOM is a record of the elements the script's selectors reach;
      handlers run in a state-and-exception monad over it.
    - The event loop is a function firing the earliest pending timer or
      dispatching one external event. *)

Set Warnings "-inexact-float".
From Stdlib Require Import PrimFloat.
From Stdlib Require Import ZArith NArith Lia.
From stdpp Require Import base option list strings.

Local Open Scope Z_scope.

(* ===================================================================== *)
(** * Part I. Definitions                                                 *)
(* ===================================================================== *)

(** ** JavaScript strings *)

Module Js.

Definition codeunit := N.
Definition jsstring := list codeunit.

(** An ASCII literal as a JavaScript string. *)
Definition lit (s : string) : jsstring :=
  List.map Ascii.N_of_ascii (String.list_ascii_of_string s).

(** The double quote, U+0022. *)
Definition dquote : jsstring := [34%N].

(** WhiteSpace and LineTerminator code points: what [String.prototype.trim]
    strips and what [\s] matches in a regular expression without the [u]
    flag. *)
Definition isWhiteSpace (c : codeunit) : bool :=
  ((9 <=? c) && (c <=? 13)            (* TAB LF VT FF CR *)
   || (c =? 32) || (c =? 160)         (* SP NBSP *)
   || (c =? 5760)                     (* U+1680 *)
   || ((8192 <=? c) && (c <=? 8202))  (* U+2000 .. U+200A *)
   || (c =? 8232) || (c =? 8233)      (* LS PS *)
   || (c =? 8239) || (c =? 8287)      (* U+202F U+205F *)
   || (c =? 12288) || (c =? 65279))%N (* U+3000 U+FEFF *).

Fixpoint trimStart (s : jsstring) : jsstring :=
  match s with
  | c :: s' => if isWhiteSpace c then trimStart s' else s
  | [] => []
  end.

Definition trimEnd (s : jsstring) : jsstring := rev (trimStart (rev s)).

(** [s.trim()] *)
Definition trim (s : jsstring) : jsstring := trimEnd (trimStart s).

(** [s.replace(/\r/g, "")] *)
Definition remove_cr (s : jsstring) : jsstring :=
  List.filter (fun c => negb (c =? 13)%N) s.

Definition isLeadSurrogate (c : codeunit) : bool :=
  ((55296 <=? c) && (c <=? 56319))%N.
Definition isTrailSurrogate (c : codeunit) : bool :=
  ((56320 <=? c) && (c <=? 57343))%N.

(** [[...s]]: the string iterator yields one string per code point, a
    surrogate pair together and a lone surrogate alone. *)
Fixpoint spread (s : jsstring) : list jsstring :=
  match s with
  | [] => []
  | c :: s' =>
      match s' with
      | d :: s'' =>
          if isLeadSurrogate c && isTrailSurrogate d
          then [c; d] :: spread s''
          else [c] :: spread s'
      | [] => [[c]]
      end
  end.

(** [s === t] on strings. *)
Definition streq (s t : jsstring) : bool := bool_decide (s = t).

(** A match of [/<br\s*\/?>/i] that starts at the head of [s]: the number
    of code units it spans.  Without the [u] flag, case-insensitive
    matching canonicalises by [toUpperCase] and never maps a non-ASCII
    code unit to an ASCII one, so only [b]/[B] and [r]/[R] match.  [\s*]
    is greedy; since neither [/] nor [>] is white space, giving back white
    space never lets the rest match, and the same holds for [\/?]. *)
Definition match_br (s : jsstring) : option nat :=
  match s with
  | lt :: b :: r :: rest =>
      if ((lt =? 60) && ((b =? 98) || (b =? 66)) && ((r =? 114) || (r =? 82)))%N
      then
        let rest1 := trimStart rest in
        let ws := (length rest - length rest1)%nat in
        match rest1 with
        | c1 :: rest2 =>
            if (c1 =? 62)%N then Some (3 + ws + 1)%nat
            else if (c1 =? 47)%N then
              match rest2 with
              | c2 :: _ => if (c2 =? 62)%N then Some (3 + ws + 2)%nat else None
              | [] => None
              end
            else None
        | [] => None
        end
      else None
  | _ => None
  end.

(** [s.split(/<br\s*\/?>/gi)] for a non-empty [s], scanning left to right:
    [skip] counts the code units of the current match still to pass over,
    [cur] is the substring since the last match, in reverse.  At a
    position where the pattern matches, the substring is emitted and the
    scan resumes after the match; elsewhere the position advances by one.
    The pattern has no capture groups and never matches the empty string. *)
Fixpoint split_br_from (skip : nat) (cur : jsstring) (s : jsstring)
  : list jsstring :=
  match s with
  | [] => [rev cur]
  | c :: s' =>
      match skip with
      | S k => split_br_from k cur s'
      | O =>
          match match_br s with
          | Some m => rev cur :: split_br_from (m - 1) [] s'
          | None => split_br_from 0 (c :: cur) s'
          end
      end
  end.

(** [s.split(/<br\s*\/?>/gi)]; the empty string, which the pattern does
    not match, splits into [[""]], which is what the scan returns. *)
Definition split_br (s : jsstring) : list jsstring := split_br_from 0 [] s.

End Js.

Import Js.

(** ** The letter-stagger decorator (lines 133-158) *)

Module Stagger.

(** The increment of [delay += 0.05]. *)
Definition increment : float := 0.05%float.

(** [char === " " ? "&nbsp;" : char] *)
Definition safeChar (char : jsstring) : jsstring :=
  if streq char (lit " ") then lit "&nbsp;" else char.

Section WithNumberToString.

(** [Number::toString], the conversion a template literal applies to
    [${delay}]; it is the engine's, not the script's. *)
Variable numberToString : float -> jsstring.

(** [`<span style="animation-delay:${delay}s">${safeChar}</span>`] *)
Definition span (delay : float) (safe : jsstring) : jsstring :=
  lit "<span style=" ++ dquote ++ lit "animation-delay:"
    ++ numberToString delay ++ lit "s" ++ dquote ++ lit ">"
    ++ safe ++ lit "</span>".

(** The body of the inner [forEach] over the variables
    [(finalHTML, delay)]. *)
Definition char_step (acc : jsstring * float) (char : jsstring)
  : jsstring * float :=
  let '(finalHTML, delay) := acc in
  (finalHTML ++ span delay (safeChar char), (delay + increment)%float).

(** The body of the outer [forEach]; [n] is [lines.length]. *)
Definition line_step (n : nat) (acc : jsstring * float)
  (il : nat * jsstring) : jsstring * float :=
  let '(i, line) := il in
  let '(finalHTML, delay) := fold_left char_step (spread line) acc in
  (if (i <? n - 1)%nat then finalHTML ++ lit "<br>" else finalHTML, delay).

(** The callback of [textElements.forEach], from [innerHTML] read to
    [innerHTML] written. *)
Definition decorate (innerHTML : jsstring) : jsstring :=
  let html := trim (remove_cr innerHTML) in
  let lines := split_br html in
  let '(finalHTML, _) :=
    fold_left (line_step (length lines)) (imap pair lines) (lit "", 0%float)
  in finalHTML.

(** [textElements.forEach(...)] over the [innerHTML] of every
    [.envelope__card-text] element; [querySelectorAll] returns a list,
    empty when nothing matches. *)
Definition decorateAll (textElements : list jsstring) : list jsstring :=
  List.map decorate textElements.

End WithNumberToString.

(** The same loops, recording what is appended to [finalHTML] instead of
    the text: a span with its delay and character, or a line break. *)
Inductive piece :=
| Span (delay : float) (safe : jsstring)
| Br.

Definition char_piece (acc : list piece * float) (char : jsstring)
  : list piece * float :=
  let '(out, delay) := acc in
  (out ++ [Span delay (safeChar char)], (delay + increment)%float).

Definition line_pieces (n : nat) (acc : list piece * float)
  (il : nat * jsstring) : list piece * float :=
  let '(i, line) := il in
  let '(out, delay) := fold_left char_piece (spread line) acc in
  (if (i <? n - 1)%nat then out ++ [Br] else out, delay).

Definition pieces (innerHTML : jsstring) : list piece :=
  let lines := split_br (trim (remove_cr innerHTML)) in
  fst (fold_left (line_pieces (length lines)) (imap pair lines) ([], 0%float)).

Definition render_piece (numberToString : float -> jsstring) (p : piece)
  : jsstring :=
  match p with
  | Span delay safe => span numberToString delay safe
  | Br => lit "<br>"
  end.

Definition render (numberToString : float -> jsstring) (ps : list piece)
  : jsstring :=
  List.concat (List.map (render_piece numberToString) ps).

(** The claim's reading of the decorator, as a specification: the delay of
    the character of ordinal [k], counted across the whole block, is the
    increment added [k] times to [0]. *)
Fixpoint delayAt (k : nat) : float :=
  match k with
  | O => 0%float
  | S k' => (delayAt k' + increment)%float
  end.

Fixpoint staggered (k : nat) (chars : list jsstring) : list piece :=
  match chars with
  | [] => []
  | c :: chars' => Span (delayAt k) (safeChar c) :: staggered (S k) chars'
  end.

Fixpoint block (k : nat) (lines : list jsstring) : list piece :=
  match lines with
  | [] => []
  | line :: lines' =>
      staggered k (spread line)
        ++ match lines' with
           | [] => []
           | _ :: _ => Br :: block (k + length (spread line)) lines'
           end
  end.

Definition is_span (p : piece) : bool :=
  match p with Span _ _ => true | Br => false end.

End Stagger.


(** ** The page and the script's state *)

(** An element's [classList] (jQuery's class set likewise): an ordered list
    of tokens. *)
Abbreviation classList := (list string).

(** [classList.add(c)], [$(...).addClass(c)]: appended unless present. *)
Definition addClass (c : string) (l : classList) : classList :=
  if bool_decide (c ∈ l) then l else l ++ [c].

(** [classList.remove(c)], [$(...).removeClass(c)]: every occurrence goes. *)
Definition removeClass (c : string) (l : classList) : classList :=
  filter (λ x, x ≠ c) l.

Definition hasClass (c : string) (l : classList) : bool := bool_decide (c ∈ l).

(** The scroll metrics of the [.envelope__card-content] element. *)
Record scroll_region := {
  scrollHeight : float;
  scrollTop : float;
  clientHeight : float
}.

(** The closures handed to [setTimeout], by the lines that create them. *)
Inductive callback :=
| ShowNextText   (* lines 59-61 and 84-86: [() => showNextText()] *)
| HideOpening    (* lines 64-77 *)
| ShowEnvelope   (* lines 72-76 *)
| ArmScroll      (* lines 114-129 *)
| ScrollToTop.   (* lines 121-126 *)

Inductive error := TypeError | ReferenceError.

(** Calls into the platform whose effect the script never reads back, and
    exceptions that reach the event loop. *)
Inductive effect :=
| PreventDefault
| FadeOut (duration : Z)
| ScrollTo (top : Z) (behavior : string)
| Uncaught (e : error).

Definition timer := (Z * callback)%type.

Record state := {
  now : Z;                           (* the clock, in milliseconds *)
  timers : list timer;               (* pending timers: due time, callback; in creation order *)
  log : list (Z * effect);           (* platform calls, with the time of the call *)
  texts : list classList;            (* [.opening-section .text], in document order *)
  openingSection : option classList; (* [.opening-section], [None] for null *)
  envelopeWrapper : option string;   (* [.envelope-wrapper]: its [style.display] *)
  currentTextIndex : option nat;     (* [None] until line 32 has run *)
  envelope : list classList;         (* [.envelope] under the open control *)
  card : list classList;             (* [.envelope__card] under the open control *)
  cardContent : option scroll_region;(* the first [.envelope__card-content] under the card *)
  scrollListeners : nat;             (* scroll listeners attached to it *)
  bgm : option nat                   (* [#bgm]: how often [play()] was called *)
}.

Definition set_now (v : Z) (s : state) : state :=
  Build_state v (timers s) (log s) (texts s) (openingSection s)
    (envelopeWrapper s) (currentTextIndex s) (envelope s) (card s)
    (cardContent s) (scrollListeners s) (bgm s).
Definition set_timers (v : list timer) (s : state) : state :=
  Build_state (now s) v (log s) (texts s) (openingSection s)
    (envelopeWrapper s) (currentTextIndex s) (envelope s) (card s)
    (cardContent s) (scrollListeners s) (bgm s).
Definition set_log (v : list (Z * effect)) (s : state) : state :=
  Build_state (now s) (timers s) v (texts s) (openingSection s)
    (envelopeWrapper s) (currentTextIndex s) (envelope s) (card s)
    (cardContent s) (scrollListeners s) (bgm s).
Definition set_texts (v : list classList) (s : state) : state :=
  Build_state (now s) (timers s) (log s) v (openingSection s)
    (envelopeWrapper s) (currentTextIndex s) (envelope s) (card s)
    (cardContent s) (scrollListeners s) (bgm s).
Definition set_openingSection (v : option classList) (s : state) : state :=
  Build_state (now s) (timers s) (log s) (texts s) v
    (envelopeWrapper s) (currentTextIndex s) (envelope s) (card s)
    (cardContent s) (scrollListeners s) (bgm s).
Definition set_envelopeWrapper (v : option string) (s : state) : state :=
  Build_state (now s) (timers s) (log s) (texts s) (openingSection s)
    v (currentTextIndex s) (envelope s) (card s)
    (cardContent s) (scrollListeners s) (bgm s).
Definition set_currentTextIndex (v : option nat) (s : state) : state :=
  Build_state (now s) (timers s) (log s) (texts s) (openingSection s)
    (envelopeWrapper s) v (envelope s) (card s)
    (cardContent s) (scrollListeners s) (bgm s).
Definition set_envelope (v : list classList) (s : state) : state :=
  Build_state (now s) (timers s) (log s) (texts s) (openingSection s)
    (envelopeWrapper s) (currentTextIndex s) v (card s)
    (cardContent s) (scrollListeners s) (bgm s).
Definition set_card (v : list classList) (s : state) : state :=
  Build_state (now s) (timers s) (log s) (texts s) (openingSection s)
    (envelopeWrapper s) (currentTextIndex s) (envelope s) v
    (cardContent s) (scrollListeners s) (bgm s).
Definition set_cardContent (v : option scroll_region) (s : state) : state :=
  Build_state (now s) (timers s) (log s) (texts s) (openingSection s)
    (envelopeWrapper s) (currentTextIndex s) (envelope s) (card s)
    v (scrollListeners s) (bgm s).
Definition set_scrollListeners (v : nat) (s : state) : state :=
  Build_state (now s) (timers s) (log s) (texts s) (openingSection s)
    (envelopeWrapper s) (currentTextIndex s) (envelope s) (card s)
    (cardContent s) v (bgm s).
Definition set_bgm (v : option nat) (s : state) : state :=
  Build_state (now s) (timers s) (log s) (texts s) (openingSection s)
    (envelopeWrapper s) (currentTextIndex s) (envelope s) (card s)
    (cardContent s) (scrollListeners s) v.

(** ** The monad of handlers: state, and exceptions that keep the state *)

Inductive result (A : Type) :=
| Val (a : A)
| Exn (e : error).
Arguments Val {A} a.
Arguments Exn {A} e.

Definition M (A : Type) : Type := state → result A * state.

Global Instance M_ret : MRet M := λ A a s, (Val a, s).
Global Instance M_bind : MBind M := λ A B k m s,
  match m s with
  | (Val a, s') => k a s'
  | (Exn e, s') => (Exn e, s')
  end.

Definition gets {A} (f : state → A) : M A := λ s, (Val (f s), s).
Definition modify (f : state → state) : M unit := λ s, (Val (), f s).

(** Reading a [let] binding before its declaration has run. *)
Definition readVar {A} (f : state → option A) : M A := λ s,
  match f s with
  | Some a => (Val a, s)
  | None => (Exn ReferenceError, s)
  end.

(** A property access or call on a value that may be [null] or [undefined]. *)
Definition deref {A} (f : state → option A) : M A := λ s,
  match f s with
  | Some a => (Val a, s)
  | None => (Exn TypeError, s)
  end.

(** [setTimeout(cb, delay)] *)
Definition setTimeout (cb : callback) (delay : Z) : M unit :=
  modify (λ s, set_timers (timers s ++ [(now s + delay, cb)]) s).

Definition platform (e : effect) : M unit :=
  modify (λ s, set_log (log s ++ [(now s, e)]) s).

(** ** The sequencer (lines 14-87) *)

Definition textDisplayDuration : Z := 2500.
Definition textTransitionDuration : Z := 800.
Definition startupDelay : Z := 500.

(** [showNextText] (lines 43-80). *)
Definition showNextText : M unit :=
  modify (λ s, set_texts (removeClass "active" <$> texts s) s);;
  i ← readVar currentTextIndex;
  n ← gets (λ s, length (texts s));
  if bool_decide (i < n)%nat then
    text ← deref (λ s, texts s !! i);
    modify (λ s, set_texts (<[i := addClass "active" text]> (texts s)) s);;
    modify (set_currentTextIndex (Some (S i)));;
    if bool_decide (S i < n)%nat
    then setTimeout ShowNextText textDisplayDuration
    else setTimeout HideOpening textDisplayDuration
  else mret ().

(** The timeout of lines 64-77. *)
Definition hideOpening : M unit :=
  modify (λ s, set_openingSection (addClass "hidden" <$> openingSection s) s);;
  setTimeout ShowEnvelope textTransitionDuration.

(** The timeout of lines 72-76. *)
Definition showEnvelope : M unit :=
  modify (λ s, set_envelopeWrapper ((λ _, "block") <$> envelopeWrapper s) s).

(** [initTextFading] (lines 14-87). *)
Definition initTextFading : M unit :=
  n ← gets (λ s, length (texts s));
  if bool_decide (n = 0)%nat then
    modify (λ s, set_envelopeWrapper ((λ _, "block") <$> envelopeWrapper s) s);;
    modify (λ s, set_openingSection (addClass "hidden" <$> openingSection s) s)
  else
    modify (set_currentTextIndex (Some 0%nat));;
    setTimeout ShowNextText startupDelay.

(** ** The envelope click handler (lines 99-131) *)

Definition armDelay : Z := 1000.
Definition returnDelay : Z := 1000.

(** [scrollHeight - scrollTop <= clientHeight + 5] (line 117). *)
Definition isAtBottom (c : scroll_region) : bool :=
  (scrollHeight c - scrollTop c <=? clientHeight c + 5)%float.

(** The scroll listener (lines 115-128); [cardContentElement] is the
    element the click handler found. *)
Definition scrollListener : M unit :=
  cardContentElement ← deref cardContent;
  if isAtBottom cardContentElement
  then setTimeout ScrollToTop returnDelay
  else mret ().

(** The timeout of lines 121-126. *)
Definition scrollToTop : M unit := platform (ScrollTo 0 "smooth").

(** The timeout of lines 114-129: a new listener each time it runs. *)
Definition armScroll : M unit :=
  modify (λ s, set_scrollListeners (S (scrollListeners s)) s).

(** The click handler of [.js-open-envelope] (lines 99-131). *)
Definition onOpenEnvelopeClick : M unit :=
  platform PreventDefault;;
  modify (λ s, set_envelope
                 ((λ l, addClass "open" (removeClass "tossing" l)) <$> envelope s) s);;
  modify (λ s, set_card (addClass "open" <$> card s) s);;
  platform (FadeOut 300);;
  cardContentElement ← gets cardContent;
  match cardContentElement with
  | Some _ => setTimeout ArmScroll armDelay
  | None => mret ()
  end.

(** ** The audio trigger (lines 160-163) *)

Definition onDocumentClick : M unit :=
  plays ← deref bgm;
  modify (set_bgm (Some (S plays))).

(** ** The event loop *)

Definition run_callback (cb : callback) : M unit :=
  match cb with
  | ShowNextText => showNextText
  | HideOpening => hideOpening
  | ShowEnvelope => showEnvelope
  | ArmScroll => armScroll
  | ScrollToTop => scrollToTop
  end.

(** One task: the handler runs to its end or to an exception, which the
    event loop reports; what the handler did before stays done. *)
Definition task (m : M unit) (s : state) : state :=
  match m s with
  | (Val _, s') => s'
  | (Exn e, s') => set_log (log s' ++ [(now s', Uncaught e)]) s'
  end.

(** The pending timer to fire next, the earliest one and among equals the
    one created first, and the timers that stay. *)
Fixpoint pop_due (ts : list timer) : option (timer * list timer) :=
  match ts with
  | [] => None
  | t :: ts' =>
      match pop_due ts' with
      | None => Some (t, [])
      | Some (u, rest) =>
          if t.1 <=? u.1 then Some (t, ts') else Some (u, t :: rest)
      end
  end.

Inductive event :=
| Timeout                                   (* the next pending timer fires *)
| ClickOpenEnvelope (t : Z)                 (* a click on the open control at [t] *)
| ClickDocument (t : Z)                     (* a click anywhere else at [t] *)
| ScrollCardContent (t : Z) (top : float).  (* the card content scrolled to [top] at [t] *)

(** An external event at time [t] is dispatched when the clock has not
    passed [t] and every timer due before [t] has fired. *)
Definition at_time (t : Z) (s : state) : option state :=
  if bool_decide (now s ≤ t) && forallb (λ tm : timer, t <=? tm.1) (timers s)
  then Some (set_now t s)
  else None.

(** The metrics of a region once it is scrolled to [top]. *)
Definition scrolled_to (top : float) (c : scroll_region) : scroll_region :=
  {| scrollHeight := scrollHeight c; scrollTop := top;
     clientHeight := clientHeight c |}.

(** The scroll event: the platform has moved [scrollTop], then every
    attached listener runs. *)
Definition dispatch_scroll (top : float) (s : state) : option state :=
  c ← cardContent s;
  Some (Nat.iter (scrollListeners s) (task scrollListener)
          (set_cardContent (Some (scrolled_to top c)) s)).

(** A click on the open control runs its handler and then bubbles to the
    document's click listener. *)
Definition step (ev : event) (s : state) : option state :=
  match ev with
  | Timeout =>
      '(tm, rest) ← pop_due (timers s);
      Some (task (run_callback tm.2)
              (set_now (Z.max (now s) tm.1) (set_timers rest s)))
  | ClickOpenEnvelope t =>
      s' ← at_time t s;
      Some (task onDocumentClick (task onOpenEnvelopeClick s'))
  | ClickDocument t =>
      s' ← at_time t s;
      Some (task onDocumentClick s')
  | ScrollCardContent t top =>
      s' ← at_time t s;
      dispatch_scroll top s'
  end.

Fixpoint run (evs : list event) (s : state) : option state :=
  match evs with
  | [] => Some s
  | ev :: evs' => s' ← step ev s; run evs' s'
  end.

(** The timers due at or before [t] fire, in order. *)
Fixpoint run_until (fuel : nat) (t : Z) (s : state) : option state :=
  match pop_due (timers s) with
  | Some (tm, _) =>
      if tm.1 <=? t then
        match fuel with
        | O => None
        | S fuel' => s' ← step Timeout s; run_until fuel' t s'
        end
      else Some s
  | None => Some s
  end.

(** Every pending timer fires, in order, until none is left. *)
Fixpoint drain (fuel : nat) (s : state) : option state :=
  match timers s with
  | [] => Some s
  | _ :: _ =>
      match fuel with
      | O => None
      | S fuel' => s' ← step Timeout s; drain fuel' s'
      end
  end.

(** ** Page load *)

Record page := {
  page_texts : list classList;
  page_openingSection : option classList;
  page_envelopeWrapper : option string;
  page_envelope : list classList;
  page_card : list classList;
  page_cardContent : option scroll_region;
  page_bgm : bool
}.

(** The state when the document is ready, at time [0]: no timer is
    pending, no listener is attached to the card content, and
    [currentTextIndex] does not exist yet. *)
Definition loaded (p : page) : state := {|
  now := 0;
  timers := [];
  log := [];
  texts := page_texts p;
  openingSection := page_openingSection p;
  envelopeWrapper := page_envelopeWrapper p;
  currentTextIndex := None;
  envelope := page_envelope p;
  card := page_card p;
  cardContent := page_cardContent p;
  scrollListeners := 0;
  bgm := if page_bgm p then Some 0%nat else None
|}.

(** [$(document).ready(function() { initTextFading(); })] *)
Definition ready (p : page) : state := task initTextFading (loaded p).

(** ** Observations on the sequencer *)

(** How many flags are set. *)
Definition count_true (bs : list bool) : nat := length (filter (λ b, b = true) bs).

(** Which items carry the class [active], and how many. *)
Definition active (s : state) : list bool := hasClass "active" <$> texts s.
Definition count_active (s : state) : nat := count_true (active s).

(** Whether the sequence container carries the class [hidden]. *)
Definition hidden (s : state) : option bool := hasClass "hidden" <$> openingSection s.

(** ** Auxiliary definitions for the proofs *)

(** The state after the class changes and the two platform calls of the
    click handler. *)
Definition opened (s : state) : state :=
  set_log (log s ++ [(now s, PreventDefault); (now s, FadeOut 300)])
    (set_card (addClass "open" <$> card s)
       (set_envelope
          ((λ l, addClass "open" (removeClass "tossing" l)) <$> envelope s) s)).

(** What the sequencer owns: the items' classes and the cursor. *)
Definition seq_view (s : state) : list classList * option nat :=
  (texts s, currentTextIndex s).

(** [showNextText] on what the sequencer owns. *)
Definition advance (v : list classList * option nat)
  : list classList * option nat :=
  let ts := removeClass "active" <$> v.1 in
  match v.2 with
  | None => (ts, None)
  | Some i =>
      match ts !! i with
      | Some text => (<[i := addClass "active" text]> ts, Some (S i))
      | None => (ts, Some i)
      end
  end.

(** The items' flags when item [i] alone of [n] is active. *)
Definition only (i n : nat) : list bool := <[i := true]> (replicate n false).

(** The cursor is within the sequence, when it exists. *)
Definition cursor_within (n : nat) (c : option nat) : Prop :=
  match c with
  | Some i => (i ≤ n)%nat
  | None => True
  end.

(** ** Example pages *)

Definition region0 : scroll_region :=
  {| scrollHeight := 900; scrollTop := 0; clientHeight := 300 |}.

(** Three text items, and every element the script looks for. *)
Definition page3 : page := {|
  page_texts := [["text"]; ["text"]; ["text"]];
  page_openingSection := Some ["opening-section"];
  page_envelopeWrapper := Some "none";
  page_envelope := [["envelope"; "tossing"]];
  page_card := [["envelope__card"]];
  page_cardContent := Some region0;
  page_bgm := true
|}.

(** The same page without text items. *)
Definition page0 : page := {|
  page_texts := [];
  page_openingSection := Some ["opening-section"];
  page_envelopeWrapper := Some "none";
  page_envelope := [["envelope"; "tossing"]];
  page_card := [["envelope__card"]];
  page_cardContent := Some region0;
  page_bgm := true
|}.

(** The page without a card-content element and without [#bgm]. *)
Definition page_bare : page := {|
  page_texts := [["text"]; ["text"]; ["text"]];
  page_openingSection := Some ["opening-section"];
  page_envelopeWrapper := Some "none";
  page_envelope := [["envelope"; "tossing"]];
  page_card := [["envelope__card"]];
  page_cardContent := None;
  page_bgm := false
|}.

(** What the click handler owns: the classes of the envelope and of the
    card. *)
Definition env_view (s : state) : list classList * list classList :=
  (envelope s, card s).

(** The class changes of the click handler (lines 102-104). *)
Definition open_view (v : list classList * list classList)
  : list classList * list classList :=
  ((λ l, addClass "open" (removeClass "tossing" l)) <$> v.1,
   addClass "open" <$> v.2).

(** Clicks, on the open control or anywhere else: the events that reach
    the document's click listener. *)
Definition is_click (ev : event) : bool :=
  match ev with
  | ClickOpenEnvelope _ | ClickDocument _ => true
  | Timeout | ScrollCardContent _ _ => false
  end.

Definition clicks (evs : list event) : nat := length (List.filter is_click evs).

(** ** The history behind a scroll back to the top *)

(** A timer due at [d] that a click in the history [h] set to arm the
    scroll listener. *)
Definition armed (h : list event) (d : Z) : Prop :=
  ∃ c, ClickOpenEnvelope c ∈ h ∧ d = c + armDelay.

(** A scroll back to the top due at [u]: the history [h] has a click, and
    no earlier than the arming delay after it a scroll event that left the
    card content, of metrics [r], at the bottom; [u] is the return delay
    after that event. *)
Definition triggered (r : option scroll_region) (h : list event) (u : Z) : Prop :=
  ∃ r0 c t top,
    r = Some r0
    ∧ ClickOpenEnvelope c ∈ h
    ∧ ScrollCardContent t top ∈ h
    ∧ isAtBottom (scrolled_to top r0) = true
    ∧ c + armDelay ≤ t
    ∧ u = t + returnDelay.

(** What holds of the state after the events [h], on a page whose card
    content has the metrics [r]. *)
Record scroll_inv (r : option scroll_region) (h : list event) (s : state)
  : Prop := {
  inv_due : ∀ tm, tm ∈ timers s → now s ≤ tm.1;
  inv_arm : ∀ d, (d, ArmScroll) ∈ timers s → armed h d;
  inv_listening :
    scrollListeners s ≠ 0%nat →
    ∃ c, ClickOpenEnvelope c ∈ h ∧ c + armDelay ≤ now s;
  inv_pending : ∀ d, (d, ScrollToTop) ∈ timers s → triggered r h d;
  inv_done : ∀ u, (u, ScrollTo 0 "smooth") ∈ log s → triggered r h u;
  inv_box : scrolled_to 0 <$> cardContent s = scrolled_to 0 <$> r
}.

(** ** Auxiliary definitions for the further properties *)

(** The container, if the page has one, has received [hidden]. *)
Definition container_done (p : page) (s : state) : Prop :=
  openingSection s = addClass "hidden" <$> page_openingSection p.

(** Clicks on the open control. *)
Definition is_open_click (ev : event) : bool :=
  match ev with ClickOpenEnvelope _ => true | _ => false end.

Definition open_clicks (evs : list event) : nat :=
  length (List.filter is_open_click evs).

(** Pending timers that will attach a scroll listener. *)
Definition is_arm (tm : timer) : bool :=
  match tm.2 with ArmScroll => true | _ => false end.

Definition pending_arms (s : state) : nat :=
  length (List.filter is_arm (timers s)).

(** Pending timers of the sequencer. *)
Definition is_seq (tm : timer) : bool :=
  match tm.2 with
  | ShowNextText | HideOpening | ShowEnvelope => true
  | ArmScroll | ScrollToTop => false
  end.

Definition seq_timers (s : state) : list timer := List.filter is_seq (timers s).

(** An uncaught exception in the log. *)
Definition is_uncaught (e : Z * effect) : bool :=
  match e.2 with Uncaught _ => true | _ => false end.

(** The sequencer's chain of timers: none pending, or exactly one, and
    then a [showNextText] with an item left to show, the hiding of the
    container, or the display of the envelope with the container hidden. *)
Definition chain (p : page) (s : state) : Prop :=
  seq_timers s = []
  ∨ (∃ d i, seq_timers s = [(d, ShowNextText)]
            ∧ currentTextIndex s = Some i
            ∧ (i < length (page_texts p))%nat)
  ∨ (∃ d, seq_timers s = [(d, HideOpening)])
  ∨ (∃ d, seq_timers s = [(d, ShowEnvelope)] ∧ container_done p s).

(** What holds of every state the event loop reaches from the load of the
    page [p], after the events [h]. *)
Record page_inv (p : page) (h : list event) (s : state) : Prop := {
  pi_items : length (texts s) = length (page_texts p);
  pi_chain : chain p s;
  pi_container :
    openingSection s = page_openingSection p ∨ container_done p s;
  pi_envelope :
    envelopeWrapper s = page_envelopeWrapper p
    ∨ (container_done p s
       ∧ envelopeWrapper s = (λ _, "block") <$> page_envelopeWrapper p);
  pi_content : is_Some (cardContent s) ↔ is_Some (page_cardContent p);
  pi_arms :
    (pending_arms s + scrollListeners s)%nat
    = match page_cardContent p with
      | Some _ => open_clicks h
      | None => 0%nat
      end;
  pi_bgm : is_Some (bgm s) ↔ page_bgm p = true;
  pi_uncaught :
    (List.filter is_uncaught (log s)).*2
    = if page_bgm p then [] else replicate (clicks h) (Uncaught TypeError)
}.

(** The text a piece shows: a span's character, with [&nbsp;] read back
    as the space it stands for; nothing for a line break. *)
Definition piece_text (p : Stagger.piece) : jsstring :=
  match p with
  | Stagger.Span _ safe => if streq safe (lit "&nbsp;") then lit " " else safe
  | Stagger.Br => []
  end.

(* ===================================================================== *)
(** * Part II. Properties                                                 *)
(* ===================================================================== *)

(** ** The letter-stagger decorator *)

Section StaggerFacts.
Import Stagger.

Lemma fold_char_piece (cs : list jsstring) (out : list piece) (k : nat) :
  fold_left char_piece cs (out, delayAt k)
  = (out ++ staggered k cs, delayAt (k + length cs)).
Proof.
  revert out k. induction cs as [|c cs IH]; intros out k; simpl.
  - rewrite app_nil_r, Nat.add_0_r. reflexivity.
  - change (delayAt k + increment)%float with (delayAt (S k)).
    rewrite IH, <- app_assoc, Nat.add_succ_r. reflexivity.
Qed.

Lemma fold_line_pieces (ls : list jsstring) (j n k : nat) (out : list piece) :
  n = (j + length ls)%nat →
  ∃ k', fold_left (line_pieces n) (imap (λ i l, ((j + i)%nat, l)) ls)
          (out, delayAt k)
        = (out ++ block k ls, delayAt k').
Proof.
  revert j k out. induction ls as [|l ls IH]; intros j k out Hn.
  - exists k. simpl. rewrite app_nil_r. reflexivity.
  - cbn [imap fold_left line_pieces block].
    rewrite fold_char_piece.
    destruct (IH (S j) (k + length (spread l))%nat
                (if (j + 0 <? n - 1)%nat
                 then (out ++ staggered k (spread l)) ++ [Br]
                 else out ++ staggered k (spread l))) as [k' Hk'].
    { simpl in Hn. lia. }
    exists k'.
    erewrite imap_ext; [rewrite Hk' | intros; simpl; f_equal; lia].
    f_equal. destruct ls as [|l' ls].
    + simpl in Hn. destruct (Nat.ltb_spec (j + 0) (n - 1)); [lia|].
      simpl. rewrite !app_nil_r. reflexivity.
    + simpl in Hn. destruct (Nat.ltb_spec (j + 0) (n - 1)); [|lia].
      rewrite <- !app_assoc. reflexivity.
Qed.

(** The loops build the specification's block. *)
Lemma pieces_block (innerHTML : jsstring) :
  pieces innerHTML = block 0 (split_br (trim (remove_cr innerHTML))).
Proof.
  unfold pieces.
  destruct (fold_line_pieces (split_br (trim (remove_cr innerHTML)))
              0 (length (split_br (trim (remove_cr innerHTML)))) 0 [] eq_refl)
    as [k' Hk'].
  exact (f_equal fst Hk').
Qed.

Section Rendered.
Variable numberToString : float → jsstring.

Lemma render_app (ps qs : list piece) :
  render numberToString (ps ++ qs)
  = render numberToString ps ++ render numberToString qs.
Proof. unfold render. rewrite List.map_app, concat_app. reflexivity. Qed.

Lemma render_one (p : piece) :
  render numberToString [p] = render_piece numberToString p.
Proof. unfold render. simpl. apply app_nil_r. Qed.

Lemma fold_char_step (cs : list jsstring) (out : list piece) (d : float) :
  fold_left (char_step numberToString) cs (render numberToString out, d)
  = (render numberToString (fold_left char_piece cs (out, d)).1,
     (fold_left char_piece cs (out, d)).2).
Proof.
  revert out d. induction cs as [|c cs IH]; intros out d; simpl; [reflexivity|].
  rewrite <- IH, render_app, render_one. reflexivity.
Qed.

Lemma fold_line_step (n : nat) (ils : list (nat * jsstring))
  (out : list piece) (d : float) :
  fold_left (line_step numberToString n) ils (render numberToString out, d)
  = (render numberToString (fold_left (line_pieces n) ils (out, d)).1,
     (fold_left (line_pieces n) ils (out, d)).2).
Proof.
  revert out d. induction ils as [|[i l] ils IH]; intros out d; simpl; [reflexivity|].
  rewrite fold_char_step.
  destruct (fold_left char_piece (spread l) (out, d)) as [out' d'] eqn:E.
  simpl. rewrite <- IH. destruct (i <? n - 1)%nat; [|reflexivity].
  rewrite render_app, render_one. reflexivity.
Qed.

(** The text written to [innerHTML] is the rendering of the pieces. *)
Lemma decorate_render (innerHTML : jsstring) :
  decorate numberToString innerHTML
  = render numberToString (pieces innerHTML).
Proof.
  unfold decorate, pieces.
  change (lit "") with (render numberToString []).
  rewrite fold_line_step.
  destruct (fold_left _ _ _) as [out d]. reflexivity.
Qed.
End Rendered.

Lemma staggered_app (k : nat) (cs ds : list jsstring) :
  staggered k (cs ++ ds) = staggered k cs ++ staggered (k + length cs) ds.
Proof.
  revert k. induction cs as [|c cs IH]; intros k; simpl.
  - rewrite Nat.add_0_r. reflexivity.
  - rewrite IH, Nat.add_succ_r. reflexivity.
Qed.

Lemma filter_span_staggered (k : nat) (cs : list jsstring) :
  List.filter is_span (staggered k cs) = staggered k cs.
Proof. revert k. induction cs; intros k; simpl; [|rewrite IHcs]; reflexivity. Qed.

(** Line breaks apart, the block is one run of spans over all the
    characters: the ordinal is not reset at a line break. *)
Lemma block_spans (k : nat) (ls : list jsstring) :
  List.filter is_span (block k ls) = staggered k (concat (spread <$> ls)).
Proof.
  revert k. induction ls as [|l ls IH]; intros k; [reflexivity|].
  cbn [block fmap list_fmap concat].
  rewrite List.filter_app, filter_span_staggered, staggered_app. f_equal.
  destruct ls as [|l' ls]; [reflexivity|].
  cbn [List.filter is_span]. apply IH.
Qed.

End StaggerFacts.

(** C3 (as amended).  For every [Number::toString] and every paragraph
    text, the decorator removes carriage returns, trims, splits on the
    line-break pattern and writes the rendering of the block: every
    character in a span (a space as [&nbsp;]), lines joined by [<br>], the
    span of ordinal [k], counted across the whole block, carrying the
    binary64 running sum [delayAt k] of [k] increments of [0.05].  On
    ["Hi<br>Yo"] the delays are [0], [0.05], [0.1] and
    [0.15000000000000002]. *)
Theorem letter_stagger_running_sum
  (numberToString : float → jsstring) (innerHTML : jsstring) :
  let lines := split_br (trim (remove_cr innerHTML)) in
  Stagger.decorate numberToString innerHTML
  = Stagger.render numberToString (Stagger.block 0 lines)
  ∧ List.filter Stagger.is_span (Stagger.block 0 lines)
    = Stagger.staggered 0 (concat (spread <$> lines))
  ∧ Stagger.safeChar (lit " ") = lit "&nbsp;"
  ∧ Stagger.pieces (lit "Hi<br>Yo")
    = [Stagger.Span 0 (lit "H"); Stagger.Span 0.05 (lit "i"); Stagger.Br;
       Stagger.Span 0.1 (lit "Y");
       Stagger.Span 0.15000000000000002 (lit "o")]
  ∧ Stagger.decorate numberToString (lit "Hi<br>Yo")
    = Stagger.span numberToString 0 (lit "H")
      ++ Stagger.span numberToString 0.05 (lit "i")
      ++ lit "<br>"
      ++ Stagger.span numberToString 0.1 (lit "Y")
      ++ Stagger.span numberToString 0.15000000000000002 (lit "o").
Proof.
  intros lines. split; [|split; [|split; [|split]]].
  - rewrite decorate_render, pieces_block. reflexivity.
  - apply block_spans.
  - reflexivity.
  - vm_compute. reflexivity.
  - rewrite decorate_render.
    replace (Stagger.pieces (lit "Hi<br>Yo"))
      with [Stagger.Span 0 (lit "H"); Stagger.Span 0.05 (lit "i"); Stagger.Br;
            Stagger.Span 0.1 (lit "Y");
            Stagger.Span 0.15000000000000002 (lit "o")]
      by (vm_compute; reflexivity).
    unfold Stagger.render. cbn [List.map Stagger.render_piece concat].
    rewrite app_nil_r. reflexivity.
Qed.

(** C3, the claim as stated, fails on its own example: the fourth delay
    is [0.1 + 0.05], which is not the number [0.15]; the running sum is
    not the product either, as at ordinal 6; and a leading space is
    trimmed, not wrapped. *)
Lemma letter_stagger_delay_is_not_the_product :
  Stagger.pieces (lit "Hi<br>Yo")
  ≠ [Stagger.Span 0 (lit "H"); Stagger.Span 0.05 (lit "i"); Stagger.Br;
     Stagger.Span 0.1 (lit "Y"); Stagger.Span 0.15 (lit "o")]
  ∧ Stagger.delayAt 6 ≠ (0.05 * 6)%float
  ∧ Stagger.pieces (lit " a") = [Stagger.Span 0 (lit "a")].
Proof.
  split; [|split; [|vm_compute; reflexivity]].
  - intros H.
    apply (f_equal (λ ps, match ps with
                          | [_; _; _; _; Stagger.Span d _] => PrimFloat.eqb d 0.15
                          | _ => true
                          end)) in H.
    vm_compute in H. discriminate H.
  - intros H.
    apply (f_equal (λ d, PrimFloat.eqb d (0.05 * 6)%float)) in H.
    vm_compute in H. discriminate H.
Qed.

(** ** Class lists *)

Lemma hasClass_addClass (c : string) (l : classList) :
  hasClass c (addClass c l) = true.
Proof.
  unfold hasClass, addClass. apply bool_decide_eq_true_2.
  case_bool_decide as H; [exact H|].
  apply elem_of_app. right. apply list_elem_of_singleton. reflexivity.
Qed.

Lemma hasClass_removeClass (c : string) (l : classList) :
  hasClass c (removeClass c l) = false.
Proof.
  unfold hasClass, removeClass. apply bool_decide_eq_false_2.
  rewrite (list_elem_of_filter (λ y, y ≠ c) l c). tauto.
Qed.

Lemma removeClass_absent (c : string) (l : classList) :
  c ∉ l → removeClass c l = l.
Proof.
  unfold removeClass. induction l as [|x l IH]; intros H; [reflexivity|].
  rewrite not_elem_of_cons in H. destruct H as [Hx Hl].
  rewrite filter_cons. destruct (decide (x ≠ c)) as [_|Hn].
  - rewrite IH by exact Hl. reflexivity.
  - exfalso. apply Hn. congruence.
Qed.

Lemma addClass_present (c : string) (l : classList) :
  c ∈ l → addClass c l = l.
Proof. intros H. unfold addClass. rewrite bool_decide_eq_true_2 by exact H. reflexivity. Qed.

Lemma elem_of_addClass (c x : string) (l : classList) :
  x ∈ addClass c l ↔ x = c ∨ x ∈ l.
Proof.
  unfold addClass. case_bool_decide as H.
  - split; [tauto|]. intros [->|Hx]; assumption.
  - rewrite elem_of_app, list_elem_of_singleton. tauto.
Qed.

Lemma elem_of_removeClass (c x : string) (l : classList) :
  x ∈ removeClass c l ↔ x ≠ c ∧ x ∈ l.
Proof. exact (list_elem_of_filter (λ y, y ≠ c) l x). Qed.

Lemma addClass_idemp (c : string) (l : classList) :
  addClass c (addClass c l) = addClass c l.
Proof. apply addClass_present, elem_of_addClass. left. reflexivity. Qed.

(** Opening an envelope twice is opening it once. *)
Lemma open_envelope_idemp (l : classList) :
  addClass "open" (removeClass "tossing" (addClass "open" (removeClass "tossing" l)))
  = addClass "open" (removeClass "tossing" l).
Proof.
  rewrite (removeClass_absent "tossing" (addClass _ _)).
  - apply addClass_idemp.
  - rewrite elem_of_addClass, elem_of_removeClass.
    intros [H|[H _]]; [discriminate H | apply H; reflexivity].
Qed.

(** ** What each handler does, in closed form *)

Lemma task_hideOpening (s : state) :
  task hideOpening s
  = set_timers (timers s ++ [(now s + textTransitionDuration, ShowEnvelope)])
      (set_openingSection (addClass "hidden" <$> openingSection s) s).
Proof. reflexivity. Qed.

Lemma task_showEnvelope (s : state) :
  task showEnvelope s
  = set_envelopeWrapper ((λ _, "block") <$> envelopeWrapper s) s.
Proof. reflexivity. Qed.

Lemma task_armScroll (s : state) :
  task armScroll s = set_scrollListeners (S (scrollListeners s)) s.
Proof. reflexivity. Qed.

Lemma task_scrollToTop (s : state) :
  task scrollToTop s = set_log (log s ++ [(now s, ScrollTo 0 "smooth")]) s.
Proof. reflexivity. Qed.

Lemma task_onDocumentClick (s : state) :
  task onDocumentClick s
  = match bgm s with
    | Some plays => set_bgm (Some (S plays)) s
    | None => set_log (log s ++ [(now s, Uncaught TypeError)]) s
    end.
Proof.
  unfold task, onDocumentClick, mbind, M_bind, deref.
  destruct (bgm s); reflexivity.
Qed.

Lemma task_scrollListener (s : state) :
  task scrollListener s
  = match cardContent s with
    | Some c =>
        if isAtBottom c
        then set_timers (timers s ++ [(now s + returnDelay, ScrollToTop)]) s
        else s
    | None => set_log (log s ++ [(now s, Uncaught TypeError)]) s
    end.
Proof.
  unfold task, scrollListener, mbind, M_bind, deref.
  destruct (cardContent s) as [c|]; [|reflexivity].
  destruct (isAtBottom c); reflexivity.
Qed.

Lemma onOpenEnvelopeClick_result (s : state) :
  onOpenEnvelopeClick s
  = (Val (),
     match cardContent s with
     | Some _ => set_timers (timers s ++ [(now s + armDelay, ArmScroll)]) (opened s)
     | None => opened s
     end).
Proof.
  unfold onOpenEnvelopeClick, mbind, M_bind, platform, modify, gets, setTimeout.
  cbn. destruct (cardContent s); cbn; unfold opened, set_log, set_card, set_envelope, set_timers; cbn;
    rewrite <- app_assoc; reflexivity.
Qed.

Lemma task_onOpenEnvelopeClick (s : state) :
  task onOpenEnvelopeClick s
  = match cardContent s with
    | Some _ => set_timers (timers s ++ [(now s + armDelay, ArmScroll)]) (opened s)
    | None => opened s
    end.
Proof. unfold task. rewrite onOpenEnvelopeClick_result. reflexivity. Qed.

(** [showNextText], by the cursor and the item it points to. *)
Lemma task_showNextText (s : state) :
  task showNextText s
  = match currentTextIndex s with
    | None =>
        set_log (log s ++ [(now s, Uncaught ReferenceError)])
          (set_texts (removeClass "active" <$> texts s) s)
    | Some i =>
        match (removeClass "active" <$> texts s) !! i with
        | Some text =>
            set_timers
              (timers s
                 ++ [(now s + textDisplayDuration,
                      if bool_decide (S i < length (texts s))%nat
                      then ShowNextText else HideOpening)])
              (set_currentTextIndex (Some (S i))
                 (set_texts
                    (<[i := addClass "active" text]>
                       (removeClass "active" <$> texts s)) s))
        | None => set_texts (removeClass "active" <$> texts s) s
        end
    end.
Proof.
  unfold task, showNextText, mbind, M_bind, modify, readVar, gets, deref, setTimeout.
  cbn. destruct (currentTextIndex s) as [i|]; [|reflexivity].
  cbn. rewrite length_fmap. case_bool_decide as Hi.
  - destruct (lookup_lt_is_Some_2 (removeClass "active" <$> texts s) i) as [text Ht].
    { rewrite length_fmap. exact Hi. }
    cbn. rewrite Ht. case_bool_decide; reflexivity.
  - rewrite (lookup_ge_None_2 (removeClass "active" <$> texts s) i);
      [reflexivity | rewrite length_fmap; lia].
Qed.

(** ** The event loop *)

Lemma pop_due_nil_iff (ts : list timer) : pop_due ts = None ↔ ts = [].
Proof.
  destruct ts as [|t ts]; [tauto|]. split; [|discriminate].
  simpl. destruct (pop_due ts) as [[u rest]|]; [|discriminate].
  destruct (t.1 <=? u.1); discriminate.
Qed.

Lemma pop_due_perm (ts : list timer) (tm : timer) (rest : list timer) :
  pop_due ts = Some (tm, rest) → ts ≡ₚ tm :: rest.
Proof.
  revert tm rest. induction ts as [|t ts IH]; intros tm rest H; [discriminate|].
  simpl in H. destruct (pop_due ts) as [[u r]|] eqn:E.
  - destruct (t.1 <=? u.1); inversion H; subst; [reflexivity|].
    rewrite (IH _ _ eq_refl). apply Permutation_swap.
  - apply pop_due_nil_iff in E. inversion H; subst. reflexivity.
Qed.

Lemma pop_due_least (ts : list timer) (tm : timer) (rest : list timer) :
  pop_due ts = Some (tm, rest) → ∀ x, x ∈ ts → tm.1 ≤ x.1.
Proof.
  revert tm rest. induction ts as [|t ts IH]; intros tm rest H x Hx; [discriminate|].
  simpl in H. destruct (pop_due ts) as [[u r]|] eqn:E.
  - specialize (IH _ _ eq_refl).
    apply elem_of_cons in Hx.
    destruct (Z.leb_spec t.1 u.1); inversion H; subst.
    + destruct Hx as [->|Hx]; [lia|]. specialize (IH _ Hx). lia.
    + destruct Hx as [->|Hx]; [lia|]. exact (IH _ Hx).
  - apply pop_due_nil_iff in E. inversion H; subst.
    apply list_elem_of_singleton in Hx. subst. lia.
Qed.

Lemma pop_due_elem (ts : list timer) (tm : timer) (rest : list timer) :
  pop_due ts = Some (tm, rest) →
  tm ∈ ts ∧ ∀ x, x ∈ rest → x ∈ ts.
Proof.
  intros H. apply pop_due_perm in H. split.
  - rewrite H. left.
  - intros x Hx. rewrite H. right. exact Hx.
Qed.

Lemma at_time_Some (t : Z) (s s' : state) :
  at_time t s = Some s' →
  s' = set_now t s ∧ now s ≤ t ∧ ∀ x, x ∈ timers s → t ≤ x.1.
Proof.
  unfold at_time. destruct (bool_decide (now s ≤ t)) eqn:Hn; [|discriminate].
  destruct (forallb _ _) eqn:Hf; [|discriminate].
  simpl. intros [= <-]. split; [reflexivity|]. split.
  - apply bool_decide_eq_true in Hn. exact Hn.
  - intros x Hx. rewrite forallb_forall in Hf.
    apply Z.leb_le. apply Hf. apply list_elem_of_In. exact Hx.
Qed.

(** A property that every step preserves holds along every run. *)
Lemma run_invariant (P : state → Prop) :
  (∀ ev s s', step ev s = Some s' → P s → P s') →
  ∀ evs s s', run evs s = Some s' → P s → P s'.
Proof.
  intros Hstep. induction evs as [|ev evs IH]; intros s s' H HP.
  - inversion H; subst. exact HP.
  - simpl in H. destruct (step ev s) as [s1|] eqn:E; [|discriminate].
    simpl in H. eapply IH; [exact H|]. eapply Hstep; eassumption.
Qed.

(** The listeners of one scroll event, together. *)
Lemma iter_scrollListener (n : nat) (s : state) (c : scroll_region) :
  cardContent s = Some c →
  Nat.iter n (task scrollListener) s
  = if isAtBottom c
    then set_timers (timers s ++ replicate n (now s + returnDelay, ScrollToTop)) s
    else s.
Proof.
  intros Hc. induction n as [|n IH]; simpl.
  - destruct (isAtBottom c); [|reflexivity].
    rewrite app_nil_r. destruct s; reflexivity.
  - rewrite IH, task_scrollListener. destruct (isAtBottom c) eqn:Hb.
    + simpl. rewrite Hc, Hb.
      unfold set_timers; simpl. rewrite <- app_assoc.
      change [(now s + returnDelay, ScrollToTop)]
        with (replicate 1 (now s + returnDelay, ScrollToTop)).
      rewrite <- replicate_add, Nat.add_1_r. reflexivity.
    + rewrite Hc, Hb. reflexivity.
Qed.

(** ** The sequencer *)

Lemma seq_view_showNextText (s : state) :
  seq_view (task showNextText s) = advance (seq_view s).
Proof.
  rewrite task_showNextText.
  destruct s as [nw tms lg txs os ew [i|] env crd cc sl bg];
    unfold advance, seq_view; cbn; [|reflexivity].
  destruct (_ !! i); reflexivity.
Qed.

Lemma seq_view_callback (cb : callback) (s : state) :
  seq_view (task (run_callback cb) s) = seq_view s
  ∨ seq_view (task (run_callback cb) s) = advance (seq_view s).
Proof.
  destruct cb; simpl.
  - right. apply seq_view_showNextText.
  - left. reflexivity.
  - left. reflexivity.
  - left. reflexivity.
  - left. reflexivity.
Qed.

Lemma seq_view_onDocumentClick (s : state) :
  seq_view (task onDocumentClick s) = seq_view s.
Proof. rewrite task_onDocumentClick. destruct (bgm s); reflexivity. Qed.

Lemma seq_view_onOpenEnvelopeClick (s : state) :
  seq_view (task onOpenEnvelopeClick s) = seq_view s.
Proof. rewrite task_onOpenEnvelopeClick. destruct (cardContent s); reflexivity. Qed.

Lemma seq_view_dispatch_scroll (top : float) (s s' : state) :
  dispatch_scroll top s = Some s' → seq_view s' = seq_view s.
Proof.
  unfold dispatch_scroll. destruct (cardContent s) as [c|]; [|discriminate].
  simpl. intros [= <-].
  erewrite iter_scrollListener by reflexivity.
  destruct (isAtBottom _); reflexivity.
Qed.

(** Every step leaves the items and the cursor alone or is one
    [showNextText]. *)
Lemma step_seq_view (ev : event) (s s' : state) :
  step ev s = Some s' →
  seq_view s' = seq_view s ∨ seq_view s' = advance (seq_view s).
Proof.
  destruct ev as [|t|t|t top]; simpl.
  - destruct (pop_due (timers s)) as [[tm rest]|]; [|discriminate].
    simpl. intros [= <-].
    apply (seq_view_callback tm.2 (set_now _ (set_timers rest s))).
  - destruct (at_time t s) as [s1|] eqn:E; [|discriminate].
    apply at_time_Some in E. destruct E as [-> _].
    simpl. intros [= <-]. left.
    rewrite seq_view_onDocumentClick, seq_view_onOpenEnvelopeClick. reflexivity.
  - destruct (at_time t s) as [s1|] eqn:E; [|discriminate].
    apply at_time_Some in E. destruct E as [-> _].
    simpl. intros [= <-]. left.
    rewrite seq_view_onDocumentClick. reflexivity.
  - destruct (at_time t s) as [s1|] eqn:E; [|discriminate].
    apply at_time_Some in E. destruct E as [-> _].
    simpl. intros H. left.
    rewrite (seq_view_dispatch_scroll _ _ _ H). reflexivity.
Qed.

Lemma active_cleared (ts : list classList) :
  hasClass "active" <$> (removeClass "active" <$> ts)
  = replicate (length ts) false.
Proof.
  induction ts as [|t ts IH]; [reflexivity|].
  simpl. rewrite hasClass_removeClass. f_equal. exact IH.
Qed.

Lemma active_shown (ts : list classList) (i : nat) (text : classList) :
  hasClass "active"
    <$> <[i := addClass "active" text]> (removeClass "active" <$> ts)
  = only i (length ts).
Proof.
  unfold only. rewrite list_fmap_insert, hasClass_addClass, active_cleared.
  reflexivity.
Qed.

Lemma count_true_replicate_false (n : nat) : count_true (replicate n false) = 0%nat.
Proof. induction n as [|n IH]; [reflexivity|]. exact IH. Qed.

Lemma count_true_only (i n : nat) :
  count_true (only i n) = if bool_decide (i < n)%nat then 1%nat else 0%nat.
Proof.
  unfold only. revert i. induction n as [|n IH]; intros i; [reflexivity|].
  destruct i as [|i].
  - simpl. unfold count_true. rewrite filter_cons_True by reflexivity.
    simpl. f_equal. apply count_true_replicate_false.
  - simpl. unfold count_true. rewrite filter_cons_False by discriminate.
    fold (count_true (<[i := true]> (replicate n false))).
    rewrite IH. repeat case_bool_decide; try reflexivity; lia.
Qed.

Lemma count_true_only_le (i n : nat) : (count_true (only i n) ≤ 1)%nat.
Proof. rewrite count_true_only. case_bool_decide; lia. Qed.

Lemma advance_length (v : list classList * option nat) :
  length (advance v).1 = length v.1.
Proof.
  unfold advance. destruct v as [ts [i|]]; simpl.
  - destruct (_ !! i); simpl; rewrite ?length_insert, length_fmap; reflexivity.
  - apply length_fmap.
Qed.

Lemma advance_cursor (v : list classList * option nat) :
  (advance v).2 = v.2
  ∨ ∃ i, v.2 = Some i ∧ (i < length v.1)%nat ∧ (advance v).2 = Some (S i).
Proof.
  unfold advance. destruct v as [ts [i|]]; simpl; [|left; reflexivity].
  destruct (_ !! i) as [text|] eqn:E; simpl; [|left; reflexivity].
  right. exists i. apply lookup_lt_Some in E. rewrite length_fmap in E.
  repeat split. exact E.
Qed.

Lemma advance_cursor_within (v : list classList * option nat) :
  cursor_within (length v.1) v.2 →
  cursor_within (length (advance v).1) (advance v).2.
Proof.
  intros H. rewrite advance_length.
  destruct (advance_cursor v) as [->|(i & Hi & Hlt & ->)]; [exact H|].
  simpl. lia.
Qed.

Lemma advance_count (v : list classList * option nat) :
  (count_true (hasClass "active" <$> (advance v).1) ≤ 1)%nat.
Proof.
  unfold advance. destruct v as [ts [i|]]; simpl.
  - destruct (_ !! i); simpl.
    + rewrite active_shown. apply count_true_only_le.
    + rewrite active_cleared, count_true_replicate_false. lia.
  - rewrite active_cleared, count_true_replicate_false. lia.
Qed.

(** What every step keeps: the number of items and the cursor within it. *)
Lemma step_cursor_invariant (ev : event) (s s' : state) :
  step ev s = Some s' →
  cursor_within (length (texts s)) (currentTextIndex s) →
  length (texts s') = length (texts s)
  ∧ cursor_within (length (texts s')) (currentTextIndex s').
Proof.
  intros Hstep Hc. apply step_seq_view in Hstep.
  change (texts s') with (seq_view s').1.
  change (currentTextIndex s') with (seq_view s').2.
  destruct Hstep as [->| ->].
  - split; [reflexivity | exact Hc].
  - split; [apply (advance_length (seq_view s))|].
    apply (advance_cursor_within (seq_view s)); exact Hc.
Qed.

(** Every step moves the cursor by one or not at all. *)
Lemma step_cursor (ev : event) (s s' : state) :
  step ev s = Some s' →
  currentTextIndex s' = currentTextIndex s
  ∨ ∃ i, currentTextIndex s = Some i
         ∧ (i < length (texts s))%nat
         ∧ currentTextIndex s' = Some (S i).
Proof.
  intros Hstep. apply step_seq_view in Hstep.
  change (currentTextIndex s') with (seq_view s').2.
  destruct Hstep as [->| ->]; [left; reflexivity|].
  apply (advance_cursor (seq_view s)).
Qed.

Lemma ready_seq_view (p : page) :
  seq_view (ready p)
  = (page_texts p, if bool_decide (length (page_texts p) = 0)%nat then None else Some 0%nat).
Proof.
  unfold ready, task, initTextFading, mbind, M_bind, gets, modify, setTimeout.
  cbn. case_bool_decide; reflexivity.
Qed.

Lemma run_cursor_invariant (p : page) (evs : list event) (s : state) :
  run evs (ready p) = Some s →
  length (texts s) = length (page_texts p)
  ∧ cursor_within (length (texts s)) (currentTextIndex s).
Proof.
  intros Hrun.
  apply (run_invariant
           (λ s, length (texts s) = length (page_texts p)
                 ∧ cursor_within (length (texts s)) (currentTextIndex s)))
    with (evs := evs) (s := ready p); [|exact Hrun|].
  - intros ev s1 s2 Hs (Hl & Hc).
    destruct (step_cursor_invariant ev s1 s2 Hs Hc) as (Hl' & Hc').
    split; [congruence | exact Hc'].
  - pose proof (ready_seq_view p) as Hv.
    apply (f_equal fst) in Hv as Ht. apply (f_equal snd) in Hv as Hi.
    simpl in Ht, Hi. rewrite Ht, Hi. split; [reflexivity|].
    case_bool_decide; simpl; [exact I | lia].
Qed.

(** Once [showNextText] has touched the items at most one is active;
    until then they are as the markup has them. *)
Lemma run_count_or_untouched (p : page) (evs : list event) (s : state) :
  run evs (ready p) = Some s →
  (count_active s ≤ 1)%nat ∨ texts s = page_texts p.
Proof.
  intros Hrun.
  apply (run_invariant (λ s, (count_active s ≤ 1)%nat ∨ texts s = page_texts p))
    with (evs := evs) (s := ready p); [|exact Hrun|].
  - intros ev s1 s2 Hs H. apply step_seq_view in Hs.
    unfold count_active, active in *.
    change (texts s2) with (seq_view s2).1.
    destruct Hs as [->| ->]; [exact H | left; apply advance_count].
  - right. exact (f_equal fst (ready_seq_view p)).
Qed.

Lemma step_Timeout_single (s : state) (d : Z) (cb : callback) :
  timers s = [(d, cb)] →
  step Timeout s
  = Some (task (run_callback cb) (set_now (Z.max (now s) d) (set_timers [] s))).
Proof. intros H. simpl. rewrite H. reflexivity. Qed.

(** From the last item's [showNextText] on: the container is hidden after
    the dwell, the envelope shown after the transition, and the item keeps
    its class. *)
Lemma drain_reveal (s : state) (d : Z) :
  timers s = [(d, HideOpening)] →
  now s ≤ d →
  ∃ s', drain 2 s = Some s'
    ∧ timers s' = []
    ∧ now s' = d + textTransitionDuration
    ∧ texts s' = texts s
    ∧ currentTextIndex s' = currentTextIndex s
    ∧ openingSection s' = addClass "hidden" <$> openingSection s
    ∧ envelopeWrapper s' = (λ _, "block") <$> envelopeWrapper s.
Proof.
  intros Ht Hn. eexists. split.
  - cbn [drain]. rewrite Ht. rewrite (step_Timeout_single s d HideOpening Ht).
    cbn [mbind option_bind]. cbn [run_callback]. rewrite task_hideOpening.
    cbn [timers set_timers set_openingSection set_now app].
    erewrite step_Timeout_single by reflexivity.
    cbn [mbind option_bind run_callback]. rewrite task_showEnvelope.
    reflexivity.
  - cbn. repeat split. unfold textTransitionDuration. lia.
Qed.

(** The whole sequence from a pending [showNextText] with [S k] items to
    go. *)
Lemma drain_sequence (k : nat) :
  ∀ (s : state) (i : nat) (d : Z),
    currentTextIndex s = Some i →
    (i + S k)%nat = length (texts s) →
    timers s = [(d, ShowNextText)] →
    now s ≤ d →
    ∃ s', drain (S k + 2) s = Some s'
      ∧ timers s' = []
      ∧ now s' = d + textDisplayDuration * Z.of_nat (S k) + textTransitionDuration
      ∧ active s' = only (i + k) (length (texts s))
      ∧ currentTextIndex s' = Some (length (texts s))
      ∧ openingSection s' = addClass "hidden" <$> openingSection s
      ∧ envelopeWrapper s' = (λ _, "block") <$> envelopeWrapper s.
Proof.
  induction k as [|k IH]; intros s i d Hi Hlen Ht Hn.
  - (* the last item *)
    destruct (lookup_lt_is_Some_2 (removeClass "active" <$> texts s) i) as [text Hx].
    { rewrite length_fmap. lia. }
    set (s1 := task showNextText (set_now (Z.max (now s) d) (set_timers [] s))).
    assert (Hs1 : s1 = set_timers [(d + textDisplayDuration, HideOpening)]
                         (set_currentTextIndex (Some (S i))
                            (set_texts (<[i := addClass "active" text]>
                                          (removeClass "active" <$> texts s))
                               (set_now d (set_timers [] s))))).
    { unfold s1. rewrite task_showNextText. cbn. rewrite Hi, Hx.
      rewrite bool_decide_eq_false_2 by lia.
      replace (Z.max (now s) d) with d by lia. reflexivity. }
    destruct (drain_reveal s1 (d + textDisplayDuration)) as (s' & Hd & H1 & H2 & H3 & H4 & H5 & H6).
    { rewrite Hs1. reflexivity. }
    { rewrite Hs1. cbn. unfold textDisplayDuration. lia. }
    exists s'. split.
    + change (0 + 2)%nat with 2%nat in *. cbn [drain Nat.add]. rewrite Ht.
      rewrite (step_Timeout_single s d ShowNextText Ht).
      cbn [mbind option_bind run_callback]. exact Hd.
    + split; [exact H1|]. split; [rewrite H2; lia|].
      unfold active. rewrite H3, H4, H5, H6, Hs1. cbn.
      rewrite active_shown, Nat.add_0_r.
      repeat split. f_equal. lia.
  - (* an item with successors *)
    destruct (lookup_lt_is_Some_2 (removeClass "active" <$> texts s) i) as [text Hx].
    { rewrite length_fmap. lia. }
    set (s1 := task showNextText (set_now (Z.max (now s) d) (set_timers [] s))).
    assert (Hs1 : s1 = set_timers [(d + textDisplayDuration, ShowNextText)]
                         (set_currentTextIndex (Some (S i))
                            (set_texts (<[i := addClass "active" text]>
                                          (removeClass "active" <$> texts s))
                               (set_now d (set_timers [] s))))).
    { unfold s1. rewrite task_showNextText. cbn. rewrite Hi, Hx.
      rewrite bool_decide_eq_true_2 by lia.
      replace (Z.max (now s) d) with d by lia. reflexivity. }
    destruct (IH s1 (S i) (d + textDisplayDuration)) as (s' & Hd & H1 & H2 & H3 & H4 & H5 & H6).
    { rewrite Hs1. reflexivity. }
    { rewrite Hs1. cbn. rewrite length_insert, length_fmap. lia. }
    { rewrite Hs1. reflexivity. }
    { rewrite Hs1. cbn. unfold textDisplayDuration. lia. }
    assert (Hl : length (texts s1) = length (texts s)).
    { rewrite Hs1. cbn. rewrite length_insert, length_fmap. reflexivity. }
    exists s'. split.
    + change (S (S k) + 2)%nat with (S (S k + 2)). cbn [drain]. rewrite Ht.
      rewrite (step_Timeout_single s d ShowNextText Ht).
      cbn [mbind option_bind run_callback]. exact Hd.
    + split; [exact H1|].
      split; [rewrite H2; unfold textDisplayDuration, textTransitionDuration; lia|].
      rewrite H3, H4, H5, H6, Hl, Hs1.
      replace (i + S k)%nat with (S i + k)%nat by lia.
      repeat split.
Qed.

Lemma ready_nonempty (p : page) :
  length (page_texts p) ≠ 0%nat →
  ready p
  = set_timers [(startupDelay, ShowNextText)]
      (set_currentTextIndex (Some 0%nat) (loaded p)).
Proof.
  intros H. unfold ready, task, initTextFading, mbind, M_bind, gets, modify, setTimeout.
  cbn. rewrite bool_decide_eq_false_2 by exact H. reflexivity.
Qed.

Lemma initTextFading_empty (p : page) :
  page_texts p = [] →
  initTextFading (loaded p)
  = (Val (),
     set_openingSection (addClass "hidden" <$> page_openingSection p)
       (set_envelopeWrapper ((λ _, "block") <$> page_envelopeWrapper p)
          (loaded p))).
Proof.
  intros H. unfold initTextFading, mbind, M_bind, gets, modify.
  cbn. rewrite H. reflexivity.
Qed.

Lemma hidden_after_add (os : option classList) :
  hasClass "hidden" <$> (addClass "hidden" <$> os) = (λ _, true) <$> os.
Proof. destruct os as [l|]; [|reflexivity]. simpl. rewrite hasClass_addClass. reflexivity. Qed.

(** The sequence of [n ≥ 1] items, run to its end. *)
Lemma drain_ready (p : page) :
  let n := length (page_texts p) in
  n ≠ 0%nat →
  ∃ s, drain (n + 2) (ready p) = Some s
    ∧ timers s = []
    ∧ now s = startupDelay + textDisplayDuration * Z.of_nat n + textTransitionDuration
    ∧ active s = only (n - 1) n
    ∧ currentTextIndex s = Some n
    ∧ openingSection s = addClass "hidden" <$> page_openingSection p
    ∧ envelopeWrapper s = (λ _, "block") <$> page_envelopeWrapper p.
Proof.
  intros n Hn.
  destruct (drain_sequence (n - 1) (ready p) 0 startupDelay)
    as (s & Hd & H1 & H2 & H3 & H4 & H5 & H6).
  - rewrite ready_nonempty by exact Hn. reflexivity.
  - rewrite ready_nonempty by exact Hn. cbn. fold n. lia.
  - rewrite ready_nonempty by exact Hn. reflexivity.
  - rewrite ready_nonempty by exact Hn. cbn. unfold startupDelay. lia.
  - assert (Hl : length (texts (ready p)) = n).
    { rewrite ready_nonempty by exact Hn. reflexivity. }
    assert (Ho : openingSection (ready p) = page_openingSection p).
    { rewrite ready_nonempty by exact Hn. reflexivity. }
    assert (He : envelopeWrapper (ready p) = page_envelopeWrapper p).
    { rewrite ready_nonempty by exact Hn. reflexivity. }
    exists s. replace (n + 2)%nat with (S (n - 1) + 2)%nat by lia.
    rewrite Hl, ?Ho, ?He in *.
    replace (S (n - 1)) with n in H2 by lia.
    repeat split; assumption.
Qed.

(** C1, the claim as stated, fails: on the page with three items the run
    ends with the envelope shown and the third item still active. *)
Lemma last_item_is_never_deactivated :
  count_active <$> drain 5 (ready page3) = Some 1%nat
  ∧ timers <$> drain 5 (ready page3) = Some []
  ∧ drain 5 (ready page3) ≫= envelopeWrapper = Some "block"
  ∧ ¬ (∀ s, drain 5 (ready page3) = Some s → count_active s = 0%nat).
Proof.
  assert (Hc : count_active <$> drain 5 (ready page3) = Some 1%nat)
    by (vm_compute; reflexivity).
  repeat split; try (vm_compute; reflexivity).
  intros H.
  destruct (drain 5 (ready page3)) as [s|]; [|discriminate Hc].
  specialize (H s eq_refl). cbn [fmap option_fmap option_map] in Hc.
  rewrite H in Hc. discriminate Hc.
Qed.

(** C9.  When the document is ready the cursor is [0] (it does not exist
    when there is no item); in every state the event loop reaches it is at
    most the number of items; each step moves it by exactly one or not at
    all; and the run of the timers takes it to the number of items. *)
Theorem cursor_from_zero_by_one_within_length
  (p : page) (evs : list event) (s : state) :
  run evs (ready p) = Some s →
  let n := length (page_texts p) in
  currentTextIndex (ready p)
  = (if bool_decide (n = 0%nat) then None else Some 0%nat)
  ∧ (∀ i, currentTextIndex s = Some i → (i ≤ n)%nat)
  ∧ (∀ ev s', step ev s = Some s' →
       currentTextIndex s' = currentTextIndex s
       ∨ ∃ i, currentTextIndex s = Some i ∧ (i < n)%nat
              ∧ currentTextIndex s' = Some (S i))
  ∧ (n ≠ 0%nat →
     ∃ s_end, drain (n + 2) (ready p) = Some s_end
       ∧ currentTextIndex s_end = Some n).
Proof.
  intros Hrun n.
  destruct (run_cursor_invariant p evs s Hrun) as [Hl Hc]. fold n in Hl.
  split; [|split; [|split]].
  - exact (f_equal snd (ready_seq_view p)).
  - intros i Hi. rewrite Hi, Hl in Hc. exact Hc.
  - intros ev s' Hs. rewrite <- Hl. exact (step_cursor ev s s' Hs).
  - intros Hn. destruct (drain_ready p Hn) as (s_end & Hd & _ & _ & _ & H4 & _).
    exists s_end. split; assumption.
Qed.

Lemma cursor_from_zero_by_one_within_length_witness :
  ∃ s, run [Timeout; Timeout] (ready page3) = Some s
    ∧ currentTextIndex (ready page3) = Some 0%nat
    ∧ currentTextIndex s = Some 2%nat
    ∧ (∀ i, currentTextIndex s = Some i → (i ≤ 3)%nat).
Proof.
  assert (Hc : run [Timeout; Timeout] (ready page3) ≫= currentTextIndex
               = Some 2%nat) by (vm_compute; reflexivity).
  destruct (run [Timeout; Timeout] (ready page3)) as [s|] eqn:E;
    [|discriminate Hc].
  exists s.
  destruct (cursor_from_zero_by_one_within_length page3 [Timeout; Timeout] s E)
    as (H0 & Hle & _).
  split; [reflexivity|]. split; [exact H0|]. split; [exact Hc | exact Hle].
Defined.

(** C4.  With no text item [initTextFading] returns at once: the envelope
    wrapper is displayed and the container hidden (each if it exists), in
    that call, with no timer set, the clock where it was and no cursor
    created. *)
Theorem empty_sequence_reveals_at_once (p : page) :
  page_texts p = [] →
  initTextFading (loaded p)
  = (Val (),
     set_openingSection (addClass "hidden" <$> page_openingSection p)
       (set_envelopeWrapper ((λ _, "block") <$> page_envelopeWrapper p)
          (loaded p)))
  ∧ envelopeWrapper (ready p) = (λ _, "block") <$> page_envelopeWrapper p
  ∧ hidden (ready p) = (λ _, true) <$> page_openingSection p
  ∧ timers (ready p) = []
  ∧ step Timeout (ready p) = None
  ∧ now (ready p) = 0
  ∧ currentTextIndex (ready p) = None
  ∧ log (ready p) = [].
Proof.
  intros H. split; [exact (initTextFading_empty p H)|].
  unfold ready, task. rewrite (initTextFading_empty p H).
  unfold hidden. cbn. rewrite hidden_after_add. repeat split.
Qed.

Lemma empty_sequence_reveals_at_once_witness :
  envelopeWrapper (ready page0) = Some "block"
  ∧ hidden (ready page0) = Some true
  ∧ timers (ready page0) = []
  ∧ now (ready page0) = 0.
Proof.
  destruct (empty_sequence_reveals_at_once page0 eq_refl)
    as (_ & H1 & H2 & H3 & _ & H4 & _).
  repeat split; assumption.
Defined.

(** ** The timeline of the sequencer *)

Lemma run_until_fire (fuel : nat) (t : Z) (s : state) (d : Z) (cb : callback) :
  timers s = [(d, cb)] → d ≤ t →
  run_until (S fuel) t s
  = run_until fuel t
      (task (run_callback cb) (set_now (Z.max (now s) d) (set_timers [] s))).
Proof.
  intros Ht Hd. cbn [run_until]. rewrite Ht. cbn [pop_due fst].
  rewrite (proj2 (Z.leb_le d t) Hd).
  rewrite (step_Timeout_single s d cb Ht). reflexivity.
Qed.

Lemma run_until_wait (fuel : nat) (t : Z) (s : state) (d : Z) (cb : callback) :
  timers s = [(d, cb)] → t < d → run_until fuel t s = Some s.
Proof.
  intros Ht Hd. destruct fuel; cbn [run_until]; rewrite Ht; cbn [pop_due fst];
    rewrite (proj2 (Z.leb_gt d t) Hd); reflexivity.
Qed.

Lemma run_until_idle (fuel : nat) (t : Z) (s : state) :
  timers s = [] → run_until fuel t s = Some s.
Proof. intros Ht. destruct fuel; cbn [run_until]; rewrite Ht; reflexivity. Qed.

(** A pending [showNextText] fires: the item under the cursor is shown and
    the next timer set. *)
Lemma fire_showNextText (s : state) (i : nat) (d : Z) :
  currentTextIndex s = Some i →
  (i < length (texts s))%nat →
  now s ≤ d →
  ∃ text,
    task showNextText (set_now (Z.max (now s) d) (set_timers [] s))
    = set_timers
        [(d + textDisplayDuration,
          if bool_decide (S i < length (texts s))%nat
          then ShowNextText else HideOpening)]
        (set_currentTextIndex (Some (S i))
           (set_texts
              (<[i := addClass "active" text]> (removeClass "active" <$> texts s))
              (set_now d (set_timers [] s)))).
Proof.
  intros Hi Hlt Hn.
  destruct (lookup_lt_is_Some_2 (removeClass "active" <$> texts s) i) as [text Hx].
  { rewrite length_fmap. exact Hlt. }
  exists text. rewrite task_showNextText. cbn. rewrite Hi, Hx.
  replace (Z.max (now s) d) with d by lia. reflexivity.
Qed.

(** From a pending [showNextText] at [d] with the cursor at [i], the state
    in which item [i + j] is showing: the event loop is there from
    [d + j * dwell] on. *)
Lemma run_until_showing (j : nat) :
  ∀ (s : state) (i : nat) (d : Z),
    currentTextIndex s = Some i →
    (i + j < length (texts s))%nat →
    timers s = [(d, ShowNextText)] →
    now s ≤ d →
    ∃ s',
      (∀ fuel t, d + textDisplayDuration * Z.of_nat j ≤ t →
                 run_until (S j + fuel) t s = run_until fuel t s')
      ∧ active s' = only (i + j) (length (texts s))
      ∧ length (texts s') = length (texts s)
      ∧ currentTextIndex s' = Some (S (i + j))
      ∧ timers s'
        = [(d + textDisplayDuration * Z.of_nat (S j),
            if bool_decide (S (i + j) < length (texts s))%nat
            then ShowNextText else HideOpening)]
      ∧ now s' = d + textDisplayDuration * Z.of_nat j
      ∧ openingSection s' = openingSection s
      ∧ envelopeWrapper s' = envelopeWrapper s.
Proof.
  unfold textDisplayDuration.
  induction j as [|j IH]; intros s i d Hi Hlt Ht Hn.
  - destruct (fire_showNextText s i d Hi) as [text Hs1]; [lia | exact Hn |].
    unfold textDisplayDuration in Hs1.
    eexists. split.
    { intros fuel t Hd. apply (run_until_fire fuel t s d ShowNextText Ht). lia. }
    cbn [run_callback]. rewrite Hs1. cbn.
    unfold active. cbn. rewrite active_shown, length_insert, length_fmap.
    rewrite Nat.add_0_r.
    replace (d + 2500 * Z.of_nat 1) with (d + 2500) by lia.
    repeat split. lia.
  - destruct (fire_showNextText s i d Hi) as [text Hs1]; [lia | exact Hn |].
    unfold textDisplayDuration in Hs1.
    rewrite bool_decide_eq_true_2 in Hs1 by lia.
    set (s1 := task showNextText (set_now (Z.max (now s) d) (set_timers [] s))) in *.
    assert (Hl : length (texts s1) = length (texts s)).
    { rewrite Hs1. cbn. rewrite length_insert, length_fmap. reflexivity. }
    destruct (IH s1 (S i) (d + 2500)) as (s' & Ha & H1 & H2 & H3 & H4 & H5 & H6 & H7).
    { rewrite Hs1. reflexivity. }
    { rewrite Hl. lia. }
    { rewrite Hs1. reflexivity. }
    { rewrite Hs1. cbn. lia. }
    exists s'. split.
    { intros fuel t Hd.
      change (S (S j) + fuel)%nat with (S (S j + fuel)).
      rewrite (run_until_fire (S j + fuel) t s d ShowNextText Ht) by lia.
      apply Ha. lia. }
    rewrite Hl in *. replace (i + S j)%nat with (S i + j)%nat by lia.
    rewrite H1, H2, H3, H4, H5, H6, H7, Hs1. cbn.
    replace (d + 2500 + 2500 * Z.of_nat (S j))
      with (d + 2500 * Z.of_nat (S (S j))) by lia.
    repeat split. lia.
Qed.

(** The two timers after the last item: the container is hidden at [T],
    the envelope shown at [T + transition]. *)
Lemma run_until_reveal (s : state) (T : Z) :
  timers s = [(T, HideOpening)] →
  now s ≤ T →
  ∃ sH sE,
    (∀ fuel t, T ≤ t → run_until (S fuel) t s = run_until fuel t sH)
    ∧ (∀ fuel t, t < T + textTransitionDuration → run_until fuel t sH = Some sH)
    ∧ (∀ fuel t, T + textTransitionDuration ≤ t → run_until (S fuel) t sH = Some sE)
    ∧ texts sH = texts s ∧ texts sE = texts s
    ∧ openingSection sH = addClass "hidden" <$> openingSection s
    ∧ openingSection sE = addClass "hidden" <$> openingSection s
    ∧ envelopeWrapper sH = envelopeWrapper s
    ∧ envelopeWrapper sE = (λ _, "block") <$> envelopeWrapper s
    ∧ timers sE = [].
Proof.
  intros Ht Hn.
  exists (task hideOpening (set_now (Z.max (now s) T) (set_timers [] s))).
  exists (task showEnvelope
            (set_now (Z.max T (T + textTransitionDuration))
               (set_timers []
                  (task hideOpening (set_now (Z.max (now s) T) (set_timers [] s)))))).
  split; [|split; [|split]].
  - intros fuel t Hd. exact (run_until_fire fuel t s T HideOpening Ht Hd).
  - intros fuel t Hd. rewrite task_hideOpening.
    eapply run_until_wait; [reflexivity|].
    cbn. lia.
  - intros fuel t Hd. rewrite task_hideOpening.
    erewrite run_until_fire; [|reflexivity|cbn; lia].
    cbn [run_callback]. rewrite task_showEnvelope.
    rewrite run_until_idle by reflexivity.
    cbn. replace (Z.max (now s) T) with T by lia. reflexivity.
  - rewrite task_hideOpening, task_showEnvelope. cbn. repeat split.
Qed.

(** The state in the window of item [k]. *)
Lemma showing_item (p : page) (k : nat) (t : Z) :
  (k < length (page_texts p))%nat →
  startupDelay + textDisplayDuration * Z.of_nat k ≤ t
    < startupDelay + textDisplayDuration * Z.of_nat (S k) →
  ∃ s, run_until (S k) t (ready p) = Some s
    ∧ active s = only k (length (page_texts p))
    ∧ count_active s = 1%nat
    ∧ openingSection s = page_openingSection p
    ∧ envelopeWrapper s = page_envelopeWrapper p.
Proof.
  intros Hk Ht.
  assert (Hn : length (page_texts p) ≠ 0%nat) by lia.
  pose proof (ready_nonempty p Hn) as Hr.
  destruct (run_until_showing k (ready p) 0 startupDelay)
    as (s & Ha & H1 & H2 & H3 & H4 & H5 & H6 & H7).
  - rewrite Hr. reflexivity.
  - rewrite Hr. exact Hk.
  - rewrite Hr. reflexivity.
  - rewrite Hr. cbn. unfold startupDelay. lia.
  - assert (Hl : length (texts (ready p)) = length (page_texts p))
      by (rewrite Hr; reflexivity).
    rewrite Hl in H1, H4. simpl in H1.
    exists s. split.
    + replace (S k) with (S k + 0)%nat at 1 by lia.
      rewrite (Ha 0%nat t) by lia.
      eapply run_until_wait; [exact H4 | lia].
    + split; [exact H1|]. split.
      { unfold count_active. rewrite H1, count_true_only.
        rewrite bool_decide_eq_true_2 by exact Hk. reflexivity. }
      rewrite H6, H7, Hr. split; reflexivity.
Qed.

(** The two states after the last item's window, with [n >= 1] items and
    [T = 500 + 2500 n]: container hidden from [T], envelope shown from
    [T + 800]; the last item active in both. *)
Lemma revealing (p : page) :
  let n := length (page_texts p) in
  let T := startupDelay + textDisplayDuration * Z.of_nat n in
  n ≠ 0%nat →
  (∀ t, T ≤ t < T + textTransitionDuration →
     ∃ s, run_until (n + 1) t (ready p) = Some s
       ∧ active s = only (n - 1) n
       ∧ count_active s = 1%nat
       ∧ hidden s = (λ _, true) <$> page_openingSection p
       ∧ envelopeWrapper s = page_envelopeWrapper p)
  ∧ (∀ t, T + textTransitionDuration ≤ t →
       ∃ s, run_until (n + 2) t (ready p) = Some s
         ∧ timers s = []
         ∧ active s = only (n - 1) n
         ∧ count_active s = 1%nat
         ∧ hidden s = (λ _, true) <$> page_openingSection p
         ∧ envelopeWrapper s = (λ _, "block") <$> page_envelopeWrapper p).
Proof.
  intros n T Hn.
  pose proof (ready_nonempty p Hn) as Hr.
  assert (Hl : length (texts (ready p)) = n) by (rewrite Hr; reflexivity).
  destruct n as [|m] eqn:En; [contradiction|].
  destruct (run_until_showing m (ready p) 0 startupDelay)
    as (sL & Ha & H1 & H2 & H3 & H4 & H5 & H6 & H7).
  { rewrite Hr. reflexivity. }
  { rewrite Hl. lia. }
  { rewrite Hr. reflexivity. }
  { rewrite Hr. cbn. unfold startupDelay. lia. }
  rewrite Hl in H1, H4. simpl in H1, H4.
  rewrite bool_decide_eq_false_2 in H4 by lia. fold T in H4.
  destruct (run_until_reveal sL T H4)
    as (sH & sE & HH & HHw & HE & Hx1 & Hx2 & Ho1 & Ho2 & He1 & He2 & Ht2).
  { rewrite H5. unfold T, textDisplayDuration. lia. }
  assert (Hos : openingSection sL = page_openingSection p)
    by (rewrite H6, Hr; reflexivity).
  assert (Hes : envelopeWrapper sL = page_envelopeWrapper p)
    by (rewrite H7, Hr; reflexivity).
  assert (AH : active sH = only m (S m)).
  { unfold active in *. rewrite Hx1. exact H1. }
  assert (AE : active sE = only m (S m)).
  { unfold active in *. rewrite Hx2. exact H1. }
  assert (Hone : count_true (only m (S m)) = 1%nat).
  { rewrite count_true_only. rewrite bool_decide_eq_true_2 by lia. reflexivity. }
  assert (HT : startupDelay + textDisplayDuration * Z.of_nat m ≤ T).
  { unfold T, textDisplayDuration. lia. }
  replace (S m - 1)%nat with m by lia.
  split.
  - intros t Ht. exists sH. split.
    + rewrite (Ha 1%nat t) by lia. rewrite (HH 0%nat t) by lia.
      apply HHw. lia.
    + split; [exact AH|]. split; [unfold count_active; rewrite AH; exact Hone|].
      unfold hidden.
      rewrite Ho1, Hos, He1, Hes, hidden_after_add. split; reflexivity.
  - intros t Ht. exists sE. split.
    + rewrite (Ha 2%nat t) by (unfold textTransitionDuration in Ht; lia).
      rewrite (HH 1%nat t) by (unfold textTransitionDuration in Ht; lia).
      apply HE. exact Ht.
    + split; [exact Ht2|]. split; [exact AE|].
      split; [unfold count_active; rewrite AE; exact Hone|].
      unfold hidden.
      rewrite Ho2, Hos, He2, Hes, hidden_after_add. split; reflexivity.
Qed.

(** C1 (as amended).  For every page with [n] items, whatever the markup,
    and [T = 500 + 2500 n]:
    - in every state the event loop reaches, at most one item is active
      unless the items are still untouched, exactly as the markup has them;
    - until [500] the items are untouched; in the window of item [k], from
      [500 + 2500 k], that item alone is active;
    - from [T] the container carries [hidden], and one transition duration
      later, from [T + 800], the envelope wrapper is displayed and no timer
      is left; in both states the last item, alone, is still active: the
      script hides the container, it never deactivates the last item;
    - with no item nothing is pending and no item exists. *)
Theorem at_most_one_active_and_last_stays (p : page) :
  let n := length (page_texts p) in
  let T := startupDelay + textDisplayDuration * Z.of_nat n in
  (∀ evs s, run evs (ready p) = Some s →
     (count_active s ≤ 1)%nat ∨ texts s = page_texts p)
  ∧ (∀ t, t < startupDelay →
       run_until 0 t (ready p) = Some (ready p)
       ∧ texts (ready p) = page_texts p)
  ∧ (∀ k t, (k < n)%nat →
       startupDelay + textDisplayDuration * Z.of_nat k ≤ t
         < startupDelay + textDisplayDuration * Z.of_nat (S k) →
       ∃ s, run_until (S k) t (ready p) = Some s
         ∧ active s = only k n
         ∧ count_active s = 1%nat
         ∧ openingSection s = page_openingSection p
         ∧ envelopeWrapper s = page_envelopeWrapper p)
  ∧ (n ≠ 0%nat →
     ∀ t, T ≤ t < T + textTransitionDuration →
       ∃ s, run_until (n + 1) t (ready p) = Some s
         ∧ active s = only (n - 1) n
         ∧ count_active s = 1%nat
         ∧ hidden s = (λ _, true) <$> page_openingSection p
         ∧ envelopeWrapper s = page_envelopeWrapper p)
  ∧ (n ≠ 0%nat →
     ∀ t, T + textTransitionDuration ≤ t →
       ∃ s, run_until (n + 2) t (ready p) = Some s
         ∧ timers s = []
         ∧ active s = only (n - 1) n
         ∧ count_active s = 1%nat
         ∧ hidden s = (λ _, true) <$> page_openingSection p
         ∧ envelopeWrapper s = (λ _, "block") <$> page_envelopeWrapper p)
  ∧ (n ≠ 0%nat →
     ∃ s, drain (n + 2) (ready p) = Some s
       ∧ timers s = []
       ∧ active s = only (n - 1) n
       ∧ count_active s = 1%nat
       ∧ hidden s = (λ _, true) <$> page_openingSection p
       ∧ envelopeWrapper s = (λ _, "block") <$> page_envelopeWrapper p)
  ∧ (n = 0%nat → timers (ready p) = [] ∧ count_active (ready p) = 0%nat).
Proof.
  intros n T. split; [|split; [|split; [|split; [|split; [|split]]]]].
  - intros evs s Hrun. exact (run_count_or_untouched p evs s Hrun).
  - intros t Ht. split; [|exact (f_equal fst (ready_seq_view p))].
    destruct (decide (n = 0%nat)) as [H0|H0].
    + apply run_until_idle. apply length_zero_iff_nil in H0.
      unfold ready, task. rewrite (initTextFading_empty p H0). reflexivity.
    + eapply run_until_wait; [|exact Ht].
      rewrite (ready_nonempty p H0). reflexivity.
  - intros k t Hk Ht. exact (showing_item p k t Hk Ht).
  - intros Hn. exact (proj1 (revealing p Hn)).
  - intros Hn. exact (proj2 (revealing p Hn)).
  - intros Hn.
    destruct (drain_ready p Hn) as (s & Hd & H1 & _ & H3 & _ & H5 & H6).
    exists s. fold n in Hd, H3.
    split; [exact Hd|]. split; [exact H1|]. split; [exact H3|].
    split; [|split; [|exact H6]].
    + unfold count_active. rewrite H3, count_true_only.
      rewrite bool_decide_eq_true_2 by lia. reflexivity.
    + unfold hidden. rewrite H5. apply hidden_after_add.
  - intros Hn. apply length_zero_iff_nil in Hn.
    unfold ready, task. rewrite (initTextFading_empty p Hn).
    unfold count_active, active. cbn. rewrite Hn. split; reflexivity.
Qed.

Lemma at_most_one_active_and_last_stays_witness :
  (∃ s, run_until 4 8000 (ready page3) = Some s
     ∧ active s = [false; false; true]
     ∧ count_active s = 1%nat
     ∧ hidden s = Some true
     ∧ envelopeWrapper s = Some "none")
  ∧ (∃ s, run_until 5 8800 (ready page3) = Some s
       ∧ timers s = []
       ∧ active s = [false; false; true]
       ∧ count_active s = 1%nat
       ∧ hidden s = Some true
       ∧ envelopeWrapper s = Some "block").
Proof.
  destruct (at_most_one_active_and_last_stays page3)
    as (_ & _ & _ & H4 & H5 & _).
  split.
  - apply (H4 ltac:(discriminate) 8000).
    unfold startupDelay, textDisplayDuration, textTransitionDuration. simpl. lia.
  - apply (H5 ltac:(discriminate) 8800).
    unfold startupDelay, textDisplayDuration, textTransitionDuration. simpl. lia.
Defined.

(** C2 (as amended).  With three items [a], [b], [c] (dwell 2500,
    transition 800, startup delay 500): nothing changes before [t = 500];
    [a] alone is active from 500, [b] alone from 3000, [c] alone from 5500;
    at 8000 the container gets the class [hidden], and [c] keeps its class
    [active]; the envelope wrapper is displayed at 8800, and no timer is
    left. *)
Theorem three_items_timeline (p : page) (a b c : classList) :
  page_texts p = [a; b; c] →
  let at_ t := run_until 5 t (ready p) in
  active <$> at_ 499 = Some (hasClass "active" <$> [a; b; c])
  ∧ active <$> at_ 500 = Some [true; false; false]
  ∧ active <$> at_ 2999 = Some [true; false; false]
  ∧ active <$> at_ 3000 = Some [false; true; false]
  ∧ active <$> at_ 5499 = Some [false; true; false]
  ∧ active <$> at_ 5500 = Some [false; false; true]
  ∧ active <$> at_ 7999 = Some [false; false; true]
  ∧ at_ 7999 ≫= hidden = hidden (loaded p)
  ∧ at_ 8000 ≫= hidden = (λ _, true) <$> page_openingSection p
  ∧ active <$> at_ 8000 = Some [false; false; true]
  ∧ at_ 8799 ≫= envelopeWrapper = page_envelopeWrapper p
  ∧ at_ 8800 ≫= envelopeWrapper = (λ _, "block") <$> page_envelopeWrapper p
  ∧ active <$> at_ 8800 = Some [false; false; true]
  ∧ timers <$> at_ 8800 = Some [].
Proof.
  intros Hp at_.
  assert (Hn : length (page_texts p) ≠ 0%nat) by (rewrite Hp; discriminate).
  pose proof (ready_nonempty p Hn) as Hr.
  assert (Hc0 : currentTextIndex (ready p) = Some 0%nat) by (rewrite Hr; reflexivity).
  assert (Ht0 : timers (ready p) = [(500, ShowNextText)]) by (rewrite Hr; reflexivity).
  assert (Hn0 : now (ready p) ≤ 500) by (rewrite Hr; cbn; lia).
  assert (Hx0 : texts (ready p) = [a; b; c]) by (rewrite Hr; exact Hp).
  assert (Ho0 : openingSection (ready p) = page_openingSection p) by (rewrite Hr; reflexivity).
  assert (He0 : envelopeWrapper (ready p) = page_envelopeWrapper p) by (rewrite Hr; reflexivity).
  assert (Hl0 : length (texts (ready p)) = 3%nat) by (rewrite Hx0; reflexivity).
  destruct (run_until_showing 0 (ready p) 0 500 Hc0) as (sA & HA & A1 & A2 & A3 & A4 & A5 & A6 & A7);
    [rewrite Hl0; lia | exact Ht0 | exact Hn0 |].
  destruct (run_until_showing 1 (ready p) 0 500 Hc0) as (sB & HB & B1 & B2 & B3 & B4 & B5 & B6 & B7);
    [rewrite Hl0; lia | exact Ht0 | exact Hn0 |].
  destruct (run_until_showing 2 (ready p) 0 500 Hc0) as (sC & HC & C1 & C2 & C3 & C4 & C5 & C6 & C7);
    [rewrite Hl0; lia | exact Ht0 | exact Hn0 |].
  rewrite Hl0 in A1, A4, B1, B4, C1, C4.
  unfold textDisplayDuration in *.
  rewrite bool_decide_eq_true_2 in A4 by lia.
  rewrite bool_decide_eq_true_2 in B4 by lia.
  rewrite bool_decide_eq_false_2 in C4 by lia.
  change (500 + 2500 * Z.of_nat 1) with 3000 in *.
  change (500 + 2500 * Z.of_nat 2) with 5500 in *.
  change (500 + 2500 * Z.of_nat 3) with 8000 in *.
  change (500 + 2500 * Z.of_nat 0) with 500 in *.
  destruct (run_until_reveal sC 8000 C4) as
    (sH & sE & HH & HHw & HE & Hx1 & Hx2 & Ho1 & Ho2 & He1 & He2 & Ht2);
    [lia|].
  unfold textTransitionDuration in *.
  assert (E499 : at_ 499 = Some (ready p)).
  { apply (run_until_wait 5 499 (ready p) 500 ShowNextText Ht0). lia. }
  assert (EA : ∀ t, 500 ≤ t < 3000 → at_ t = Some sA).
  { intros t Ht. unfold at_.
    transitivity (run_until 4 t sA); [apply (HA 4%nat t); lia|].
    apply (run_until_wait 4 t sA 3000 ShowNextText A4). lia. }
  assert (EB : ∀ t, 3000 ≤ t < 5500 → at_ t = Some sB).
  { intros t Ht. unfold at_.
    transitivity (run_until 3 t sB); [apply (HB 3%nat t); lia|].
    apply (run_until_wait 3 t sB 5500 ShowNextText B4). lia. }
  assert (EC : ∀ t, 5500 ≤ t < 8000 → at_ t = Some sC).
  { intros t Ht. unfold at_.
    transitivity (run_until 2 t sC); [apply (HC 2%nat t); lia|].
    apply (run_until_wait 2 t sC 8000 HideOpening C4). lia. }
  assert (EH : ∀ t, 8000 ≤ t < 8800 → at_ t = Some sH).
  { intros t Ht. unfold at_.
    transitivity (run_until 2 t sC); [apply (HC 2%nat t); lia|].
    rewrite (HH 1%nat t) by lia. apply HHw. lia. }
  assert (EE : at_ 8800 = Some sE).
  { unfold at_.
    transitivity (run_until 2 8800 sC); [apply (HC 2%nat 8800); lia|].
    rewrite (HH 1%nat 8800) by lia. apply HE. lia. }
  assert (AH : active sH = [false; false; true]).
  { unfold active in *. rewrite Hx1. exact C1. }
  assert (AE : active sE = [false; false; true]).
  { unfold active in *. rewrite Hx2. exact C1. }
  rewrite E499, (EA 500), (EA 2999), (EB 3000), (EB 5499), (EC 5500),
    (EC 7999), (EH 8000), (EH 8799), EE by lia.
  cbn [fmap option_fmap option_map mbind option_bind].
  unfold hidden.
  rewrite A1, B1, C1, AH, AE, Ho1, C6, Ho0, He1, He2, C7, He0, Ht2.
  rewrite hidden_after_add.
  unfold active. rewrite Hx0.
  repeat split.
Qed.

Lemma three_items_timeline_witness :
  active <$> run_until 5 8000 (ready page3) = Some [false; false; true]
  ∧ run_until 5 8000 (ready page3) ≫= hidden = Some true
  ∧ run_until 5 8800 (ready page3) ≫= envelopeWrapper = Some "block".
Proof.
  destruct (three_items_timeline page3 ["text"] ["text"] ["text"] eq_refl)
    as (_ & _ & _ & _ & _ & _ & _ & _ & H1 & H2 & _ & H3 & _).
  repeat split; assumption.
Defined.

(** C2, the claim as stated, fails: at [t = 8000] the third item is not
    hidden, it still carries [active]; only the container is hidden. *)
Lemma items_are_not_hidden_at_8000 :
  active <$> run_until 5 8000 (ready page3) ≠ Some [false; false; false]
  ∧ texts <$> run_until 5 8000 (ready page3)
    = Some [["text"]; ["text"]; ["text"; "active"]]
  ∧ openingSection <$> run_until 5 8000 (ready page3)
    = Some (Some ["opening-section"; "hidden"]).
Proof.
  split; [|split; vm_compute; reflexivity].
  assert (Hc : active <$> run_until 5 8000 (ready page3)
               = Some [false; false; true]) by (vm_compute; reflexivity).
  rewrite Hc. discriminate.
Qed.



(** ** The envelope click handler's classes *)

Lemma open_view_idemp (v : list classList * list classList) :
  open_view (open_view v) = open_view v.
Proof.
  unfold open_view. destruct v as [e c]. simpl. f_equal.
  - rewrite <- list_fmap_compose. apply list_fmap_ext.
    intros i l _. apply open_envelope_idemp.
  - rewrite <- list_fmap_compose. apply list_fmap_ext.
    intros i l _. apply addClass_idemp.
Qed.

Lemma env_view_callback (cb : callback) (s : state) :
  env_view (task (run_callback cb) s) = env_view s.
Proof.
  destruct cb; simpl; try reflexivity.
  rewrite task_showNextText.
  destruct (currentTextIndex s) as [i|]; [destruct (_ !! i)|]; reflexivity.
Qed.

Lemma env_view_onDocumentClick (s : state) :
  env_view (task onDocumentClick s) = env_view s.
Proof. rewrite task_onDocumentClick. destruct (bgm s); reflexivity. Qed.

Lemma env_view_onOpenEnvelopeClick (s : state) :
  env_view (task onOpenEnvelopeClick s) = open_view (env_view s).
Proof. rewrite task_onOpenEnvelopeClick. destruct (cardContent s); reflexivity. Qed.

Lemma env_view_dispatch_scroll (top : float) (s s' : state) :
  dispatch_scroll top s = Some s' → env_view s' = env_view s.
Proof.
  unfold dispatch_scroll. destruct (cardContent s) as [c|]; [|discriminate].
  simpl. intros [= <-].
  erewrite iter_scrollListener by reflexivity.
  destruct (isAtBottom _); reflexivity.
Qed.

(** Every step leaves the classes alone or applies the click's changes. *)
Lemma step_env_view (ev : event) (s s' : state) :
  step ev s = Some s' →
  env_view s' = (if ev is ClickOpenEnvelope _ then open_view (env_view s)
                 else env_view s).
Proof.
  destruct ev as [|t|t|t top]; simpl.
  - destruct (pop_due (timers s)) as [[tm rest]|]; [|discriminate].
    simpl. intros [= <-].
    apply (env_view_callback tm.2 (set_now _ (set_timers rest s))).
  - destruct (at_time t s) as [s1|] eqn:E; [|discriminate].
    apply at_time_Some in E. destruct E as [-> _].
    simpl. intros [= <-].
    rewrite env_view_onDocumentClick, env_view_onOpenEnvelopeClick. reflexivity.
  - destruct (at_time t s) as [s1|] eqn:E; [|discriminate].
    apply at_time_Some in E. destruct E as [-> _].
    simpl. intros [= <-].
    rewrite env_view_onDocumentClick. reflexivity.
  - destruct (at_time t s) as [s1|] eqn:E; [|discriminate].
    apply at_time_Some in E. destruct E as [-> _].
    simpl. intros H.
    rewrite (env_view_dispatch_scroll _ _ _ H). reflexivity.
Qed.

(** C6.  After a click on the open control the envelopes have lost
    [tossing] and gained [open] and the cards have gained [open]; whatever
    happens afterwards, any number of further clicks included, the classes
    of the envelopes and the cards stay what the first click made them. *)
Theorem reclick_keeps_open_classes
  (s s1 s2 : state) (t : Z) (evs : list event) :
  step (ClickOpenEnvelope t) s = Some s1 →
  run evs s1 = Some s2 →
  envelope s1 = (λ l, addClass "open" (removeClass "tossing" l)) <$> envelope s
  ∧ card s1 = addClass "open" <$> card s
  ∧ envelope s2 = envelope s1
  ∧ card s2 = card s1.
Proof.
  intros Hclick Hrun.
  pose proof (step_env_view _ _ _ Hclick) as H1. simpl in H1.
  assert (H2 : env_view s2 = env_view s1).
  { apply (run_invariant (λ x, env_view x = env_view s1)) with (evs := evs) (s := s1);
      [|exact Hrun|reflexivity].
    intros ev x x' Hs Hx. rewrite (step_env_view _ _ _ Hs), Hx.
    destruct ev; try reflexivity.
    rewrite H1. apply open_view_idemp. }
  unfold env_view, open_view in H1, H2. simpl in H1.
  inversion H1. inversion H2. repeat split; assumption.
Qed.

Lemma reclick_keeps_open_classes_witness :
  ∃ s1 s2,
    step (ClickOpenEnvelope 100) (ready page3) = Some s1
    ∧ run [ClickOpenEnvelope 200] s1 = Some s2
    ∧ envelope s1 = [["envelope"; "open"]]
    ∧ card s1 = [["envelope__card"; "open"]]
    ∧ envelope s2 = envelope s1
    ∧ card s2 = card s1.
Proof.
  destruct (step (ClickOpenEnvelope 100) (ready page3)) as [s1|] eqn:E1;
    [|exfalso; revert E1; vm_compute; discriminate].
  destruct (run [ClickOpenEnvelope 200] s1) as [s2|] eqn:E2.
  - exists s1, s2.
    destruct (reclick_keeps_open_classes (ready page3) s1 s2 100
                [ClickOpenEnvelope 200] E1 E2) as (H1 & H2 & H3 & H4).
    repeat split; assumption.
  - exfalso.
    assert (H : step (ClickOpenEnvelope 100) (ready page3)
                ≫= run [ClickOpenEnvelope 200] ≠ None)
      by (vm_compute; discriminate).
    rewrite E1 in H. change (run [ClickOpenEnvelope 200] s1 ≠ None) in H.
    exact (H E2).
Defined.

(** ** The audio trigger *)

Lemma bgm_callback (cb : callback) (s : state) :
  bgm (task (run_callback cb) s) = bgm s.
Proof.
  destruct cb; simpl; try reflexivity.
  rewrite task_showNextText.
  destruct (currentTextIndex s) as [i|]; [destruct (_ !! i)|]; reflexivity.
Qed.

Lemma bgm_onOpenEnvelopeClick (s : state) :
  bgm (task onOpenEnvelopeClick s) = bgm s.
Proof. rewrite task_onOpenEnvelopeClick. destruct (cardContent s); reflexivity. Qed.

Lemma bgm_onDocumentClick (s : state) :
  bgm (task onDocumentClick s) = S <$> bgm s.
Proof.
  rewrite task_onDocumentClick.
  destruct (bgm s) eqn:E; [reflexivity|]. simpl. exact E.
Qed.

Lemma bgm_dispatch_scroll (top : float) (s s' : state) :
  dispatch_scroll top s = Some s' → bgm s' = bgm s.
Proof.
  unfold dispatch_scroll. destruct (cardContent s) as [c|]; [|discriminate].
  simpl. intros [= <-].
  erewrite iter_scrollListener by reflexivity.
  destruct (isAtBottom _); reflexivity.
Qed.

(** A click calls [play()] once more; no other step does. *)
Lemma step_bgm (ev : event) (s s' : state) :
  step ev s = Some s' →
  bgm s' = (if is_click ev then S <$> bgm s else bgm s).
Proof.
  destruct ev as [|t|t|t top]; simpl.
  - destruct (pop_due (timers s)) as [[tm rest]|]; [|discriminate].
    simpl. intros [= <-].
    apply (bgm_callback tm.2 (set_now _ (set_timers rest s))).
  - destruct (at_time t s) as [s1|] eqn:E; [|discriminate].
    apply at_time_Some in E. destruct E as [-> _].
    simpl. intros [= <-].
    rewrite bgm_onDocumentClick, bgm_onOpenEnvelopeClick. reflexivity.
  - destruct (at_time t s) as [s1|] eqn:E; [|discriminate].
    apply at_time_Some in E. destruct E as [-> _].
    simpl. intros [= <-].
    rewrite bgm_onDocumentClick. reflexivity.
  - destruct (at_time t s) as [s1|] eqn:E; [|discriminate].
    apply at_time_Some in E. destruct E as [-> _].
    simpl. intros H.
    rewrite (bgm_dispatch_scroll _ _ _ H). reflexivity.
Qed.

(** C8.  When [#bgm] exists, the document's click listener calls [play()]
    whatever the count of earlier calls, and along any run the number of
    calls grows by exactly the number of clicks: every click, the first
    and each later one, re-issues the call. *)
Theorem every_click_plays_again
  (s s' : state) (evs : list event) (plays : nat) :
  bgm s = Some plays →
  run evs s = Some s' →
  onDocumentClick s = (Val (), set_bgm (Some (S plays)) s)
  ∧ bgm s' = Some (plays + clicks evs)%nat.
Proof.
  intros Hb Hrun. split.
  - unfold onDocumentClick, mbind, M_bind, deref. rewrite Hb. reflexivity.
  - revert s plays Hb Hrun. induction evs as [|ev evs IH]; intros s plays Hb Hrun.
    + inversion Hrun; subst. rewrite Hb. unfold clicks. simpl.
      rewrite Nat.add_0_r. reflexivity.
    + simpl in Hrun. destruct (step ev s) as [s1|] eqn:E; [|discriminate].
      simpl in Hrun. pose proof (step_bgm ev s s1 E) as H1. rewrite Hb in H1.
      unfold clicks. simpl. destruct (is_click ev); simpl in H1 |- *.
      * rewrite (IH s1 (S plays) H1 Hrun). unfold clicks. f_equal. lia.
      * exact (IH s1 plays H1 Hrun).
Qed.

Lemma every_click_plays_again_witness :
  ∃ s', run [ClickDocument 10; ClickOpenEnvelope 20; ClickDocument 30]
          (ready page3) = Some s'
        ∧ bgm s' = Some 3%nat.
Proof.
  assert (H : run [ClickDocument 10; ClickOpenEnvelope 20; ClickDocument 30]
                (ready page3) ≠ None) by (vm_compute; discriminate).
  destruct (run _ (ready page3)) as [s'|] eqn:E; [|exfalso; exact (H eq_refl)].
  exists s'. split; [reflexivity|].
  exact (proj2 (every_click_plays_again (ready page3) s' _ 0 eq_refl E)).
Defined.

(** C10.  The listener throws a [TypeError] exactly when [#bgm] is
    absent, before doing anything; when the element exists it returns
    normally.  In the event loop a click on a page without the element
    ends as an uncaught error. *)
Theorem audio_click_needs_the_element (s : state) :
  (bgm s = None ↔ onDocumentClick s = (Exn TypeError, s))
  ∧ (∀ plays, bgm s = Some plays →
       onDocumentClick s = (Val (), set_bgm (Some (S plays)) s))
  ∧ (bgm s = None →
     ∀ t s', step (ClickDocument t) s = Some s' →
       log s' = log s ++ [(t, Uncaught TypeError)]).
Proof.
  split; [|split].
  - unfold onDocumentClick, mbind, M_bind, deref.
    destruct (bgm s); split; intros H; try reflexivity; discriminate H.
  - intros plays Hb. unfold onDocumentClick, mbind, M_bind, deref.
    rewrite Hb. reflexivity.
  - intros Hb t s'. simpl.
    destruct (at_time t s) as [s1|] eqn:E; [|discriminate].
    apply at_time_Some in E. destruct E as [-> _].
    simpl. intros [= <-]. rewrite task_onDocumentClick.
    simpl. rewrite Hb. reflexivity.
Qed.

Lemma audio_click_needs_the_element_witness :
  onDocumentClick (loaded page_bare) = (Exn TypeError, loaded page_bare)
  ∧ onDocumentClick (loaded page3)
    = (Val (), set_bgm (Some 1%nat) (loaded page3)).
Proof.
  split.
  - apply (proj1 (audio_click_needs_the_element (loaded page_bare))). reflexivity.
  - apply (proj1 (proj2 (audio_click_needs_the_element (loaded page3)))). reflexivity.
Defined.

(** ** Absent elements *)

(** C7 (as amended).  When the card-content element is absent the click
    handler returns normally with the class changes and the two platform
    calls done and nothing else: no timer is set, no listener attached, no
    error raised.  The decorator over no card-text element does nothing. *)
Theorem absent_targets_are_skipped
  (s : state) (numberToString : float → jsstring) :
  cardContent s = None →
  onOpenEnvelopeClick s = (Val (), opened s)
  ∧ timers (opened s) = timers s
  ∧ scrollListeners (opened s) = scrollListeners s
  ∧ log (opened s) = log s ++ [(now s, PreventDefault); (now s, FadeOut 300)]
  ∧ Stagger.decorateAll numberToString [] = [].
Proof.
  intros Hc. rewrite onOpenEnvelopeClick_result, Hc. repeat split.
Qed.

Lemma absent_targets_are_skipped_witness :
  onOpenEnvelopeClick (loaded page_bare) = (Val (), opened (loaded page_bare))
  ∧ timers (opened (loaded page_bare)) = [].
Proof.
  destruct (absent_targets_are_skipped (loaded page_bare) (λ _, []) eq_refl)
    as (H1 & H2 & _).
  split; [exact H1 | exact H2].
Defined.

(** C7, the claim as stated, fails: without the card-content element the
    click handler raises nothing, and without card-text elements the
    decorator has nothing to fail on. *)
Lemma absent_card_content_raises_nothing :
  (∀ e, (onOpenEnvelopeClick (loaded page_bare)).1 ≠ Exn e)
  ∧ log (task onOpenEnvelopeClick (loaded page_bare))
    = [(0, PreventDefault); (0, FadeOut 300)]
  ∧ timers (task onOpenEnvelopeClick (loaded page_bare)) = []
  ∧ (∀ numberToString, Stagger.decorateAll numberToString [] = []).
Proof.
  split; [|repeat split].
  intros e. rewrite onOpenEnvelopeClick_result. discriminate.
Qed.

(** ** The scroll back to the top *)

Lemma armed_mono (h h' : list event) (d : Z) :
  (∀ ev, ev ∈ h → ev ∈ h') → armed h d → armed h' d.
Proof. intros Hh (c & Hc & ->). exists c. split; [apply Hh; exact Hc | reflexivity]. Qed.

Lemma triggered_mono (r : option scroll_region) (h h' : list event) (u : Z) :
  (∀ ev, ev ∈ h → ev ∈ h') → triggered r h u → triggered r h' u.
Proof.
  intros Hh (r0 & c & t & top & Hr & Hc & Ht & Hb & Hle & ->).
  exists r0, c, t, top. repeat split; try assumption; apply Hh; assumption.
Qed.

(** A handler that only adds timers and log entries keeps the invariant
    when what it adds is accounted for. *)
Lemma scroll_inv_extend (r : option scroll_region) (h h' : list event)
  (s s' : state) (X : list timer) (Y : list (Z * effect)) :
  scroll_inv r h s →
  (∀ ev, ev ∈ h → ev ∈ h') →
  now s' = now s →
  timers s' = timers s ++ X →
  log s' = log s ++ Y →
  scrollListeners s' = scrollListeners s →
  cardContent s' = cardContent s →
  (∀ tm, tm ∈ X →
     now s ≤ tm.1
     ∧ (tm.2 = ArmScroll → armed h' tm.1)
     ∧ (tm.2 = ScrollToTop → triggered r h' tm.1)) →
  (∀ u, (u, ScrollTo 0 "smooth") ∈ Y → triggered r h' u) →
  scroll_inv r h' s'.
Proof.
  intros [I1 I2 I3 I4 I5 I6] Hh Hn Ht Hl Hs Hc HX HY.
  split.
  - intros tm. rewrite Ht, Hn, elem_of_app. intros [H|H]; [exact (I1 tm H)|].
    exact (proj1 (HX tm H)).
  - intros d. rewrite Ht, elem_of_app. intros [H|H].
    + exact (armed_mono h h' d Hh (I2 d H)).
    + exact (proj1 (proj2 (HX _ H)) eq_refl).
  - rewrite Hs, Hn. intros H. destruct (I3 H) as (c & Hc1 & Hc2).
    exists c. split; [apply Hh; exact Hc1 | exact Hc2].
  - intros d. rewrite Ht, elem_of_app. intros [H|H].
    + exact (triggered_mono r h h' d Hh (I4 d H)).
    + exact (proj2 (proj2 (HX _ H)) eq_refl).
  - intros u. rewrite Hl, elem_of_app. intros [H|H].
    + exact (triggered_mono r h h' u Hh (I5 u H)).
    + exact (HY u H).
  - rewrite Hc. exact I6.
Qed.

(** The same without a change of history, for handlers that add nothing
    about scrolling. *)
Lemma scroll_inv_quiet (r : option scroll_region) (h : list event)
  (s s' : state) (X : list timer) (Y : list (Z * effect)) :
  scroll_inv r h s →
  now s' = now s →
  timers s' = timers s ++ X →
  log s' = log s ++ Y →
  scrollListeners s' = scrollListeners s →
  cardContent s' = cardContent s →
  (∀ tm, tm ∈ X → now s ≤ tm.1 ∧ tm.2 ≠ ArmScroll ∧ tm.2 ≠ ScrollToTop) →
  (∀ u, (u, ScrollTo 0 "smooth") ∉ Y) →
  scroll_inv r h s'.
Proof.
  intros HI Hn Ht Hl Hs Hc HX HY.
  apply (scroll_inv_extend r h h s s' X Y HI); try assumption.
  - intros ev H. exact H.
  - intros tm H. destruct (HX tm H) as (H1 & H2 & H3).
    split; [exact H1|]. split; intros E; contradiction.
  - intros u H. destruct (HY u H).
Qed.

Lemma scroll_inv_at_time (r : option scroll_region) (h : list event)
  (t : Z) (s s' : state) :
  at_time t s = Some s' →
  scroll_inv r h s →
  scroll_inv r h s' ∧ now s' = t ∧ now s ≤ t
  ∧ timers s' = timers s ∧ log s' = log s
  ∧ scrollListeners s' = scrollListeners s ∧ cardContent s' = cardContent s.
Proof.
  intros E [I1 I2 I3 I4 I5 I6]. apply at_time_Some in E.
  destruct E as (-> & Hn & Hd). split; [|repeat split; exact Hn].
  split; simpl; try assumption.
  intros H. destruct (I3 H) as (c & Hc1 & Hc2).
  exists c. split; [exact Hc1 | lia].
Qed.

Lemma scroll_inv_pop (r : option scroll_region) (h : list event)
  (s : state) (tm : timer) (rest : list timer) :
  pop_due (timers s) = Some (tm, rest) →
  scroll_inv r h s →
  scroll_inv r h (set_now (Z.max (now s) tm.1) (set_timers rest s))
  ∧ Z.max (now s) tm.1 = tm.1
  ∧ (tm.2 = ArmScroll → armed h tm.1)
  ∧ (tm.2 = ScrollToTop → triggered r h tm.1).
Proof.
  intros E [I1 I2 I3 I4 I5 I6].
  destruct (pop_due_elem _ _ _ E) as [Htm Hrest].
  pose proof (pop_due_least _ _ _ E) as Hleast.
  assert (Hmax : Z.max (now s) tm.1 = tm.1).
  { specialize (I1 tm Htm). lia. }
  split; [|split; [exact Hmax|]].
  - split; simpl; try assumption.
    + intros x Hx. rewrite Hmax. apply Hleast, Hrest, Hx.
    + intros d Hd. apply I2, Hrest, Hd.
    + intros H. destruct (I3 H) as (c & Hc1 & Hc2).
      exists c. split; [exact Hc1 | lia].
    + intros d Hd. apply I4, Hrest, Hd.
  - destruct tm as [d cb]. simpl. split; intros ->.
    + apply I2, Htm.
    + apply I4, Htm.
Qed.

Lemma scroll_inv_history (r : option scroll_region) (h h' : list event)
  (s : state) :
  (∀ ev, ev ∈ h → ev ∈ h') → scroll_inv r h s → scroll_inv r h' s.
Proof.
  intros Hh HI.
  apply (scroll_inv_extend r h h' s s [] [] HI Hh);
    try reflexivity; try (symmetry; apply app_nil_r).
  - intros tm H. inversion H.
  - intros u H. inversion H.
Qed.

Lemma scroll_inv_showNextText (r : option scroll_region) (h : list event)
  (s : state) :
  scroll_inv r h s → scroll_inv r h (task showNextText s).
Proof.
  intros HI. rewrite task_showNextText.
  destruct (currentTextIndex s) as [i|].
  - destruct (_ !! i) as [text|].
    + eapply (scroll_inv_quiet r h s _ [_] [] HI); try reflexivity.
      * symmetry. apply app_nil_r.
      * intros tm Htm. apply list_elem_of_singleton in Htm. subst tm. simpl.
        unfold textDisplayDuration.
        split; [lia|]. case_bool_decide; split; discriminate.
      * intros u H. inversion H.
    + eapply (scroll_inv_quiet r h s _ [] [] HI); try reflexivity;
        try (symmetry; apply app_nil_r).
      * intros tm H. inversion H.
      * intros u H. inversion H.
  - eapply (scroll_inv_quiet r h s _ [] [_] HI); try reflexivity.
    + symmetry. apply app_nil_r.
    + intros tm H. inversion H.
    + intros u H. apply list_elem_of_singleton in H. discriminate H.
Qed.

(** A timer's callback keeps the invariant, given for the two scroll
    callbacks what the invariant said of the timer. *)
Lemma scroll_inv_callback (r : option scroll_region) (h : list event)
  (s : state) (cb : callback) :
  scroll_inv r h s →
  (cb = ArmScroll → armed h (now s)) →
  (cb = ScrollToTop → triggered r h (now s)) →
  scroll_inv r h (task (run_callback cb) s).
Proof.
  intros HI Harm Htop. destruct cb; cbn [run_callback].
  - apply scroll_inv_showNextText, HI.
  - rewrite task_hideOpening.
    eapply (scroll_inv_quiet r h s _ [_] [] HI); try reflexivity.
    + symmetry. apply app_nil_r.
    + intros tm Htm. apply list_elem_of_singleton in Htm. subst tm. simpl.
      unfold textTransitionDuration. split; [lia|]. split; discriminate.
    + intros u H. inversion H.
  - rewrite task_showEnvelope.
    eapply (scroll_inv_quiet r h s _ [] [] HI); try reflexivity;
      try (symmetry; apply app_nil_r).
    + intros tm H. inversion H.
    + intros u H. inversion H.
  - rewrite task_armScroll. destruct HI as [I1 I2 I3 I4 I5 I6].
    split; simpl; try assumption.
    intros _. destruct (Harm eq_refl) as (c & Hc & E).
    exists c. split; [exact Hc | lia].
  - rewrite task_scrollToTop.
    eapply (scroll_inv_extend r h h s _ [] [_] HI); try reflexivity.
    + intros ev H. exact H.
    + symmetry. apply app_nil_r.
    + intros tm H. inversion H.
    + intros u H. apply list_elem_of_singleton in H. inversion H; subst.
      exact (Htop eq_refl).
Qed.

Lemma scroll_inv_onDocumentClick (r : option scroll_region) (h : list event)
  (s : state) :
  scroll_inv r h s → scroll_inv r h (task onDocumentClick s).
Proof.
  intros HI. rewrite task_onDocumentClick. destruct (bgm s).
  - eapply (scroll_inv_quiet r h s _ [] [] HI); try reflexivity;
      try (symmetry; apply app_nil_r).
    + intros tm H. inversion H.
    + intros u H. inversion H.
  - eapply (scroll_inv_quiet r h s _ [] [_] HI); try reflexivity.
    + symmetry. apply app_nil_r.
    + intros tm H. inversion H.
    + intros u H. apply list_elem_of_singleton in H. discriminate H.
Qed.

Lemma scroll_inv_onOpenEnvelopeClick (r : option scroll_region)
  (h : list event) (s : state) :
  scroll_inv r h s →
  scroll_inv r (h ++ [ClickOpenEnvelope (now s)]) (task onOpenEnvelopeClick s).
Proof.
  intros HI. rewrite task_onOpenEnvelopeClick.
  assert (Hh : ∀ ev, ev ∈ h → ev ∈ h ++ [ClickOpenEnvelope (now s)]).
  { intros ev H. apply elem_of_app. left. exact H. }
  assert (HY : ∀ u, (u, ScrollTo 0 "smooth")
                    ∈ [(now s, PreventDefault); (now s, FadeOut 300)]
                    → triggered r (h ++ [ClickOpenEnvelope (now s)]) u).
  { intros u H. apply elem_of_cons in H. destruct H as [H|H]; [discriminate H|].
    apply list_elem_of_singleton in H. discriminate H. }
  destruct (cardContent s).
  - eapply (scroll_inv_extend r h _ s _ [_] _ HI Hh); try reflexivity;
      [|exact HY].
    intros tm Htm. apply list_elem_of_singleton in Htm. subst tm. simpl.
    unfold armDelay. split; [lia|]. split; [|discriminate].
    intros _. exists (now s). split; [|reflexivity].
    apply elem_of_app. right. apply list_elem_of_singleton. reflexivity.
  - eapply (scroll_inv_extend r h _ s _ [] _ HI Hh); try reflexivity;
      [symmetry; apply app_nil_r | | exact HY].
    intros tm H. inversion H.
Qed.

Lemma scroll_inv_dispatch_scroll (r : option scroll_region) (h : list event)
  (top : float) (s s' : state) :
  dispatch_scroll top s = Some s' →
  scroll_inv r h s →
  scroll_inv r (h ++ [ScrollCardContent (now s) top]) s'.
Proof.
  unfold dispatch_scroll. destruct (cardContent s) as [c|] eqn:Ec; [|discriminate].
  simpl. intros [= <-] HI.
  assert (Hh : ∀ ev, ev ∈ h → ev ∈ h ++ [ScrollCardContent (now s) top]).
  { intros ev H. apply elem_of_app. left. exact H. }
  assert (HI0 : scroll_inv r (h ++ [ScrollCardContent (now s) top])
                  (set_cardContent (Some (scrolled_to top c)) s)).
  { destruct (scroll_inv_history r h _ s Hh HI) as [I1 I2 I3 I4 I5 I6].
    split; simpl; try assumption.
    rewrite <- I6, Ec. reflexivity. }
  erewrite iter_scrollListener by reflexivity.
  destruct (isAtBottom (scrolled_to top c)) eqn:Hb; [|exact HI0].
  eapply (scroll_inv_extend r _ _ _ _ _ [] HI0); try reflexivity.
  - intros ev H. exact H.
  - symmetry. apply app_nil_r.
  - intros tm Htm. apply elem_of_replicate in Htm. destruct Htm as [-> Hn].
    simpl. unfold returnDelay. split; [lia|]. split; [discriminate|].
    intros _.
    destruct (inv_listening r h s HI Hn) as (c0 & Hc0 & Hle).
    pose proof (inv_box r h s HI) as Hbox. rewrite Ec in Hbox.
    destruct r as [r0|]; [|discriminate Hbox].
    exists r0, c0, (now s), top.
    split; [reflexivity|]. split; [apply Hh, Hc0|].
    split; [apply elem_of_app; right; apply list_elem_of_singleton; reflexivity|].
    split; [|split; [exact Hle | reflexivity]].
    simpl in Hbox. inversion Hbox as [[Hsh Hch]].
    unfold scrolled_to in *. rewrite <- Hsh, <- Hch. exact Hb.
  - intros u H. inversion H.
Qed.

(** Every step keeps the invariant, with the event added to the
    history. *)
Lemma step_scroll_inv (r : option scroll_region) (h : list event)
  (ev : event) (s s' : state) :
  step ev s = Some s' →
  scroll_inv r h s →
  scroll_inv r (h ++ [ev]) s'.
Proof.
  assert (Hh : ∀ e, e ∈ h → e ∈ h ++ [ev]).
  { intros e H. apply elem_of_app. left. exact H. }
  destruct ev as [|t|t|t top]; simpl; intros Hs HI.
  - destruct (pop_due (timers s)) as [[tm rest]|] eqn:E; [|discriminate].
    simpl in Hs. inversion Hs; subst s'; clear Hs.
    destruct (scroll_inv_pop r h s tm rest E HI) as (HI0 & Hmax & Ha & Hp).
    apply (scroll_inv_history r h _ _ Hh).
    apply scroll_inv_callback; [exact HI0 | |]; simpl; rewrite Hmax; assumption.
  - destruct (at_time t s) as [s0|] eqn:E; [|discriminate].
    simpl in Hs. inversion Hs; subst s'; clear Hs.
    destruct (scroll_inv_at_time r h t s s0 E HI) as (HI0 & Hn & _).
    apply scroll_inv_onDocumentClick.
    rewrite <- Hn. apply scroll_inv_onOpenEnvelopeClick, HI0.
  - destruct (at_time t s) as [s0|] eqn:E; [|discriminate].
    simpl in Hs. inversion Hs; subst s'; clear Hs.
    destruct (scroll_inv_at_time r h t s s0 E HI) as (HI0 & _).
    apply scroll_inv_onDocumentClick.
    apply (scroll_inv_history r h _ _ Hh), HI0.
  - destruct (at_time t s) as [s0|] eqn:E; [|discriminate].
    simpl in Hs.
    destruct (scroll_inv_at_time r h t s s0 E HI) as (HI0 & Hn & _).
    rewrite <- Hn. exact (scroll_inv_dispatch_scroll r h top s0 s' Hs HI0).
Qed.

Lemma run_scroll_inv (r : option scroll_region) (evs : list event) :
  ∀ (h : list event) (s s' : state),
    run evs s = Some s' →
    scroll_inv r h s →
    scroll_inv r (h ++ evs) s'.
Proof.
  induction evs as [|ev evs IH]; intros h s s' Hrun HI.
  - inversion Hrun; subst. rewrite app_nil_r. exact HI.
  - simpl in Hrun. destruct (step ev s) as [s1|] eqn:E; [|discriminate].
    simpl in Hrun.
    replace (h ++ ev :: evs) with ((h ++ [ev]) ++ evs)
      by (rewrite <- app_assoc; reflexivity).
    apply (IH _ s1 s' Hrun). exact (step_scroll_inv r h ev s s1 E HI).
Qed.

Lemma ready_scroll_inv (p : page) :
  scroll_inv (page_cardContent p) [] (ready p).
Proof.
  destruct (decide (length (page_texts p) = 0%nat)) as [H0|H0].
  - apply length_zero_iff_nil in H0.
    unfold ready, task. rewrite (initTextFading_empty p H0).
    split; simpl; try reflexivity.
    + intros tm H. inversion H.
    + intros d H. inversion H.
    + intros H. contradiction.
    + intros d H. inversion H.
    + intros u H. inversion H.
  - rewrite (ready_nonempty p H0).
    split; simpl; try reflexivity.
    + intros tm H. apply list_elem_of_singleton in H. subst tm.
      simpl. unfold startupDelay. lia.
    + intros d H. apply list_elem_of_singleton in H. discriminate H.
    + intros H. contradiction.
    + intros d H. apply list_elem_of_singleton in H. discriminate H.
    + intros u H. inversion H.
Qed.

(** C5.  Along any run from page load, a smooth scroll back to the top
    performed at time [u] comes from a scroll event at [u - 1000] that left
    the card content with [scrollHeight - scrollTop <= clientHeight + 5],
    and that event came no earlier than 1000 after a click on the open
    control.  The listener itself sets the timer 1000 ahead exactly when
    that comparison holds, and the click sets the timer that attaches the
    listener 1000 ahead, attaching nothing itself. *)
Theorem scroll_return_only_at_bottom_once_armed
  (p : page) (evs : list event) (s : state) (u : Z) :
  run evs (ready p) = Some s →
  (u, ScrollTo 0 "smooth") ∈ log s →
  (∃ r c t top,
     page_cardContent p = Some r
     ∧ ClickOpenEnvelope c ∈ evs
     ∧ ScrollCardContent t top ∈ evs
     ∧ (scrollHeight r - top <=? clientHeight r + 5)%float = true
     ∧ c + 1000 ≤ t
     ∧ u = t + 1000)
  ∧ (∀ s0 c, cardContent s0 = Some c →
       scrollListener s0
       = (Val (),
          if (scrollHeight c - scrollTop c <=? clientHeight c + 5)%float
          then set_timers (timers s0 ++ [(now s0 + 1000, ScrollToTop)]) s0
          else s0))
  ∧ (∀ s0 c, cardContent s0 = Some c →
       timers (task onOpenEnvelopeClick s0)
       = timers s0 ++ [(now s0 + 1000, ArmScroll)]
       ∧ scrollListeners (task onOpenEnvelopeClick s0) = scrollListeners s0).
Proof.
  intros Hrun Hlog. split; [|split].
  - pose proof (run_scroll_inv (page_cardContent p) evs [] (ready p) s Hrun
                  (ready_scroll_inv p)) as HI.
    destruct (inv_done _ _ _ HI u Hlog)
      as (r0 & c & t & top & Hr & Hc & Ht & Hb & Hle & Hu).
    exists r0, c, t, top. simpl in Hc, Ht.
    unfold armDelay in Hle. unfold returnDelay in Hu.
    repeat split; assumption.
  - intros s0 c Hc. unfold scrollListener, mbind, M_bind, deref.
    rewrite Hc. fold (isAtBottom c). destruct (isAtBottom c); reflexivity.
  - intros s0 c Hc. rewrite task_onOpenEnvelopeClick, Hc. split; reflexivity.
Qed.

Lemma scroll_return_only_at_bottom_once_armed_witness :
  ∃ r c t top,
    page_cardContent page3 = Some r
    ∧ ClickOpenEnvelope c
      ∈ [ClickOpenEnvelope 100; Timeout; Timeout; ScrollCardContent 1200 600;
         Timeout]
    ∧ ScrollCardContent t top
      ∈ [ClickOpenEnvelope 100; Timeout; Timeout; ScrollCardContent 1200 600;
         Timeout]
    ∧ (scrollHeight r - top <=? clientHeight r + 5)%float = true
    ∧ c + 1000 ≤ t
    ∧ 2200 = t + 1000.
Proof.
  assert (H : log <$> run [ClickOpenEnvelope 100; Timeout; Timeout;
                           ScrollCardContent 1200 600; Timeout] (ready page3)
              = Some [(100, PreventDefault); (100, FadeOut 300);
                      (2200, ScrollTo 0 "smooth")])
    by (vm_compute; reflexivity).
  destruct (run _ (ready page3)) as [s|] eqn:E; [|discriminate H].
  cbn [fmap option_fmap option_map] in H. inversion H as [Hl].
  refine (proj1 (scroll_return_only_at_bottom_once_armed page3 _ s 2200 E _)).
  rewrite Hl. apply elem_of_cons. right. apply elem_of_cons. right. left.
Defined.

(* ===================================================================== *)
(** * Part III. Further properties of the script                          *)
(* ===================================================================== *)

(** ** The sequencer's timeline for any number of items *)

(** X1.  With [n] items, item [k < n] is the one active item throughout
    its window, from [500 + 2500 k] up to [500 + 2500 (k + 1)]: the cursor
    is then [k + 1], and neither the container nor the envelope wrapper has
    been touched. *)
Theorem item_window (p : page) (k : nat) (t : Z) :
  (k < length (page_texts p))%nat →
  startupDelay + textDisplayDuration * Z.of_nat k ≤ t
    < startupDelay + textDisplayDuration * Z.of_nat (S k) →
  ∃ s, run_until (S k) t (ready p) = Some s
    ∧ active s = only k (length (page_texts p))
    ∧ count_active s = 1%nat
    ∧ currentTextIndex s = Some (S k)
    ∧ now s = startupDelay + textDisplayDuration * Z.of_nat k
    ∧ openingSection s = page_openingSection p
    ∧ envelopeWrapper s = page_envelopeWrapper p.
Proof.
  intros Hk Ht.
  assert (Hn : length (page_texts p) ≠ 0%nat) by lia.
  pose proof (ready_nonempty p Hn) as Hr.
  destruct (run_until_showing k (ready p) 0 startupDelay)
    as (s & Ha & H1 & H2 & H3 & H4 & H5 & H6 & H7).
  - rewrite Hr. reflexivity.
  - rewrite Hr. exact Hk.
  - rewrite Hr. reflexivity.
  - rewrite Hr. cbn. unfold startupDelay. lia.
  - assert (Hl : length (texts (ready p)) = length (page_texts p))
      by (rewrite Hr; reflexivity).
    rewrite Hl in H1, H4. simpl in H1, H3.
    exists s. split.
    + replace (S k) with (S k + 0)%nat at 1 by lia.
      rewrite (Ha 0%nat t) by lia.
      eapply run_until_wait; [exact H4 | lia].
    + split; [exact H1|]. split.
      { unfold count_active. rewrite H1, count_true_only.
        rewrite bool_decide_eq_true_2 by exact Hk. reflexivity. }
      split; [exact H3|]. split; [exact H5|].
      rewrite H6, H7, Hr. split; reflexivity.
Qed.

Lemma item_window_witness :
  ∃ s, run_until 2 4000 (ready page3) = Some s
    ∧ active s = [false; true; false]
    ∧ currentTextIndex s = Some 2%nat.
Proof.
  destruct (item_window page3 1 4000) as (s & H1 & H2 & _ & H3 & _).
  - simpl. lia.
  - unfold startupDelay, textDisplayDuration. lia.
  - exists s. repeat split; assumption.
Defined.



(** ** What every reachable state satisfies *)

Lemma filter_Permutation_bool {A} (f : A → bool) (l l' : list A) :
  l ≡ₚ l' → List.filter f l ≡ₚ List.filter f l'.
Proof.
  induction 1 as [|x l l' _ IH|x y l|l1 l2 l3 _ IH1 _ IH2]; simpl.
  - reflexivity.
  - destruct (f x); [constructor|]; exact IH.
  - destruct (f x), (f y); try reflexivity. apply perm_swap.
  - etrans; eassumption.
Qed.

Lemma filter_replicate_false {A} (f : A → bool) (n : nat) (x : A) :
  f x = false → List.filter f (replicate n x) = [].
Proof. intros H. induction n as [|n IH]; simpl; [|rewrite H]; auto. Qed.

(** The popped timer against the sequencer's timers and the arming
    timers. *)
Lemma pop_due_seq (ts : list timer) (tm : timer) (rest : list timer) :
  pop_due ts = Some (tm, rest) →
  List.filter is_seq ts
  ≡ₚ (if is_seq tm then tm :: List.filter is_seq rest else List.filter is_seq rest).
Proof.
  intros H. apply pop_due_perm in H.
  rewrite (filter_Permutation_bool is_seq _ _ H). simpl.
  destruct (is_seq tm); reflexivity.
Qed.

Lemma pop_due_arm (ts : list timer) (tm : timer) (rest : list timer) :
  pop_due ts = Some (tm, rest) →
  length (List.filter is_arm ts)
  = ((if is_arm tm then 1 else 0) + length (List.filter is_arm rest))%nat.
Proof.
  intros H. apply pop_due_perm in H.
  rewrite (Permutation_length (filter_Permutation_bool is_arm _ _ H)). simpl.
  destruct (is_arm tm); reflexivity.
Qed.

Lemma page_inv_set_now (p : page) (h : list event) (t : Z) (s : state) :
  page_inv p h s → page_inv p h (set_now t s).
Proof. intros [I1 I2 I3 I4 I5 I6 I7 I8]. split; assumption. Qed.

Lemma block_fmap_idemp (ew : option string) :
  (λ _ : string, "block") <$> ((λ _ : string, "block") <$> ew)
  = (λ _ : string, "block") <$> ew.
Proof. destruct ew; reflexivity. Qed.

Lemma hidden_fmap_idemp (os : option classList) :
  addClass "hidden" <$> (addClass "hidden" <$> os) = addClass "hidden" <$> os.
Proof. destruct os as [l|]; [|reflexivity]. simpl. rewrite addClass_idemp. reflexivity. Qed.

Lemma chain_length (p : page) (s : state) :
  chain p s → (length (seq_timers s) ≤ 1)%nat.
Proof.
  intros [H|[(d & i & H & _)|[(d & H)|(d & H & _)]]]; rewrite H; simpl; lia.
Qed.

Lemma perm_short {A} (l l' : list A) :
  l ≡ₚ l' → (length l ≤ 1)%nat → l' = l.
Proof.
  intros H Hl. destruct l as [|x [|y l]]; simpl in Hl; [| |lia].
  - apply Permutation_nil_r. symmetry. exact H.
  - symmetry. apply Permutation_singleton_l. exact H.
Qed.

Lemma chain_ext (p : page) (s s' : state) :
  seq_timers s' = seq_timers s →
  currentTextIndex s' = currentTextIndex s →
  openingSection s' = openingSection s →
  chain p s → chain p s'.
Proof.
  unfold chain, container_done. intros -> -> ->. tauto.
Qed.

(** The sequencer's timer that fires is the one of the chain. *)
Lemma chain_popped (p : page) (s : state) (tm : timer) (rest : list timer) :
  pop_due (timers s) = Some (tm, rest) →
  chain p s →
  if is_seq tm
  then seq_timers s = [tm] ∧ List.filter is_seq rest = []
  else List.filter is_seq rest = seq_timers s.
Proof.
  intros E Hc. pose proof (pop_due_seq _ _ _ E) as Hp.
  pose proof (chain_length p s Hc) as Hl. fold (seq_timers s) in Hp.
  destruct (is_seq tm).
  - pose proof (perm_short _ _ Hp Hl) as H. rewrite <- H in Hl |- *.
    simpl in Hl. destruct (List.filter is_seq rest); [|simpl in Hl; lia].
    split; reflexivity.
  - exact (perm_short _ _ Hp Hl).
Qed.

Lemma page_inv_fire (p : page) (h : list event) (s : state)
  (tm : timer) (rest : list timer) :
  pop_due (timers s) = Some (tm, rest) →
  page_inv p h s →
  page_inv p h
    (task (run_callback tm.2)
       (set_now (Z.max (now s) tm.1) (set_timers rest s))).
Proof.
  intros E [I1 I2 I3 I4 I5 I6 I7 I8].
  pose proof (chain_popped p s tm rest E I2) as Hc.
  pose proof (pop_due_arm _ _ _ E) as Ha. fold (pending_arms s) in Ha.
  unfold container_done in *.
  destruct tm as [d cb]. destruct cb; cbn [snd fst run_callback] in *;
    cbn [is_seq is_arm snd] in Hc, Ha.
  - (* showNextText *)
    destruct Hc as [Hs Hr].
    destruct I2 as [H|[(d' & i & H & Hi & Hlt)|[(d' & H)|(d' & H & _)]]];
      rewrite Hs in H; try discriminate H.
    rewrite task_showNextText. cbn. rewrite Hi.
    destruct (lookup_lt_is_Some_2 (removeClass "active" <$> texts s) i) as [text Hx].
    { rewrite length_fmap, I1. exact Hlt. }
    rewrite Hx. split; cbn; try assumption.
    + rewrite length_insert, length_fmap. exact I1.
    + unfold chain, seq_timers, container_done. cbn.
      rewrite List.filter_app, Hr, I1. cbn.
      case_bool_decide as Hn; cbn.
      * right. left. eexists _, (S i). repeat split. exact Hn.
      * right. right. left. eexists. reflexivity.
    + rewrite <- I6, Ha. unfold pending_arms. cbn.
      rewrite List.filter_app, length_app. cbn.
      case_bool_decide; cbn; lia.
  - (* the container is hidden *)
    destruct Hc as [Hs Hr].
    rewrite task_hideOpening.
    assert (Hd : addClass "hidden" <$> openingSection s
                 = addClass "hidden" <$> page_openingSection p).
    { destruct I3 as [-> | ->]; [reflexivity | apply hidden_fmap_idemp]. }
    split; cbn; try assumption.
    + unfold chain, seq_timers, container_done. cbn.
      rewrite List.filter_app, Hr. cbn.
      right. right. right. eexists. split; [reflexivity | exact Hd].
    + right. exact Hd.
    + destruct I4 as [H|[_ H]]; [left; exact H | right; split; [exact Hd | exact H]].
    + rewrite <- I6, Ha. unfold pending_arms. cbn.
      rewrite List.filter_app, length_app. cbn. lia.
  - (* the envelope is shown *)
    destruct Hc as [Hs Hr].
    destruct I2 as [H|[(d' & i & H & _)|[(d' & H)|(d' & H & Hd)]]];
      rewrite Hs in H; try discriminate H.
    rewrite task_showEnvelope.
    split; cbn; try assumption.
    + left. exact Hr.
    + right. split; [exact Hd|].
      destruct I4 as [-> | [_ ->]]; [reflexivity | apply block_fmap_idemp].
    + rewrite <- I6, Ha. reflexivity.
  - (* the listener is attached *)
    rewrite task_armScroll.
    split; cbn; try assumption.
    + apply (chain_ext p s); [exact Hc | reflexivity | reflexivity | exact I2].
    + rewrite <- I6, Ha. unfold pending_arms. cbn. lia.
  - (* the scroll back *)
    rewrite task_scrollToTop.
    split; cbn; try assumption.
    + apply (chain_ext p s); [exact Hc | reflexivity | reflexivity | exact I2].
    + rewrite <- I6, Ha. reflexivity.
    + rewrite List.filter_app. cbn. rewrite app_nil_r. exact I8.
Qed.

Lemma clicks_snoc (h : list event) (ev : event) :
  clicks (h ++ [ev]) = (clicks h + if is_click ev then 1 else 0)%nat.
Proof.
  unfold clicks. rewrite List.filter_app, length_app. simpl.
  destruct (is_click ev); reflexivity.
Qed.

Lemma open_clicks_snoc (h : list event) (ev : event) :
  open_clicks (h ++ [ev])
  = (open_clicks h + if is_open_click ev then 1 else 0)%nat.
Proof.
  unfold open_clicks. rewrite List.filter_app, length_app. simpl.
  destruct (is_open_click ev); reflexivity.
Qed.

Lemma replicate_snoc {A} (n : nat) (x : A) :
  replicate (n + 1) x = replicate n x ++ [x].
Proof. rewrite replicate_add. reflexivity. Qed.

(** An event that is no click leaves the counts of the history alone. *)
Lemma page_inv_history (p : page) (h : list event) (ev : event) (s : state) :
  is_click ev = false →
  page_inv p h s → page_inv p (h ++ [ev]) s.
Proof.
  intros Hev [I1 I2 I3 I4 I5 I6 I7 I8].
  assert (Ho : is_open_click ev = false) by (destruct ev; try reflexivity; discriminate Hev).
  split; try assumption.
  - rewrite open_clicks_snoc, Ho, Nat.add_0_r. exact I6.
  - rewrite clicks_snoc, Hev, Nat.add_0_r. exact I8.
Qed.

(** The document's listener, after the event [ev], a click, has been put
    into the history for the counts of the open control. *)
Lemma page_inv_onDocumentClick (p : page) (h : list event) (ev : event)
  (s : state) :
  is_click ev = true →
  length (texts s) = length (page_texts p) →
  chain p s →
  openingSection s = page_openingSection p ∨ container_done p s →
  envelopeWrapper s = page_envelopeWrapper p
  ∨ (container_done p s
     ∧ envelopeWrapper s = (λ _, "block") <$> page_envelopeWrapper p) →
  (is_Some (cardContent s) ↔ is_Some (page_cardContent p)) →
  (pending_arms s + scrollListeners s)%nat
  = match page_cardContent p with
    | Some _ => open_clicks (h ++ [ev])
    | None => 0%nat
    end →
  (is_Some (bgm s) ↔ page_bgm p = true) →
  (List.filter is_uncaught (log s)).*2
  = (if page_bgm p then [] else replicate (clicks h) (Uncaught TypeError)) →
  page_inv p (h ++ [ev]) (task onDocumentClick s).
Proof.
  intros Hev I1 I2 I3 I4 I5 I6 I7 I8.
  rewrite task_onDocumentClick. destruct (bgm s) as [plays|] eqn:Eb.
  - assert (Hb : page_bgm p = true) by (apply I7; eexists; reflexivity).
    rewrite Hb in I8.
    split; cbn; try assumption.
    + split; [intros _; exact Hb | intros _; eexists; reflexivity].
    + rewrite Hb. exact I8.
  - assert (Hb : page_bgm p = false).
    { destruct (page_bgm p); [|reflexivity].
      destruct (proj2 I7 eq_refl) as [x Hx]. discriminate Hx. }
    rewrite Hb in I8.
    split; cbn; try assumption.
    + rewrite Eb. exact I7.
    + rewrite Hb, clicks_snoc, Hev, replicate_snoc.
      rewrite List.filter_app, fmap_app, I8. reflexivity.
Qed.

Lemma page_inv_click (p : page) (h : list event) (ev : event) (s : state) :
  is_click ev = true →
  page_inv p h s →
  page_inv p (h ++ [ev])
    (task onDocumentClick
       (if is_open_click ev then task onOpenEnvelopeClick s else s)).
Proof.
  intros Hev [I1 I2 I3 I4 I5 I6 I7 I8].
  destruct (is_open_click ev) eqn:Ho.
  - rewrite task_onOpenEnvelopeClick.
    assert (Hlog : (List.filter is_uncaught
                      (log s ++ [(now s, PreventDefault); (now s, FadeOut 300)])).*2
                   = (List.filter is_uncaught (log s)).*2).
    { rewrite List.filter_app. cbn. rewrite app_nil_r. reflexivity. }
    destruct (cardContent s) as [c|] eqn:Ec.
    + destruct (page_cardContent p) as [r|] eqn:Er;
        [|destruct (proj1 I5 (ex_intro _ c eq_refl)) as [x Hx]; discriminate Hx].
      apply page_inv_onDocumentClick; cbn; try assumption.
      * apply (chain_ext p s); [|reflexivity|reflexivity|exact I2].
        unfold seq_timers. cbn. rewrite List.filter_app. cbn.
        apply app_nil_r.
      * rewrite Ec, Er. exact I5.
      * rewrite Er, open_clicks_snoc, Ho, <- I6. unfold pending_arms. cbn.
        rewrite List.filter_app, length_app. cbn. lia.
      * rewrite Hlog. exact I8.
    + destruct (page_cardContent p) as [r|] eqn:Er;
        [destruct (proj2 I5 (ex_intro _ r eq_refl)) as [x Hx]; discriminate Hx|].
      apply page_inv_onDocumentClick; cbn; try assumption.
      * rewrite Ec, Er. exact I5.
      * rewrite Er. exact I6.
      * rewrite Hlog. exact I8.
  - apply page_inv_onDocumentClick; try assumption.
    rewrite open_clicks_snoc, Ho, Nat.add_0_r. exact I6.
Qed.

Lemma page_inv_dispatch_scroll (p : page) (h : list event) (top : float)
  (s s' : state) :
  dispatch_scroll top s = Some s' →
  page_inv p h s → page_inv p h s'.
Proof.
  unfold dispatch_scroll. destruct (cardContent s) as [c|] eqn:Ec; [|discriminate].
  simpl. intros [= <-] [I1 I2 I3 I4 I5 I6 I7 I8].
  erewrite iter_scrollListener by reflexivity.
  assert (H5 : is_Some (Some (scrolled_to top c)) ↔ is_Some (page_cardContent p)).
  { rewrite <- I5, Ec. split; intros _; eexists; reflexivity. }
  destruct (isAtBottom (scrolled_to top c)).
  - split; cbn; try assumption.
    + apply (chain_ext p s); [|reflexivity|reflexivity|exact I2].
      unfold seq_timers. cbn. rewrite List.filter_app.
      rewrite filter_replicate_false by reflexivity. apply app_nil_r.
    + rewrite <- I6. unfold pending_arms. cbn. rewrite List.filter_app.
      rewrite filter_replicate_false by reflexivity. rewrite app_nil_r.
      reflexivity.
  - split; cbn; assumption.
Qed.

Lemma step_page_inv (p : page) (h : list event) (ev : event) (s s' : state) :
  step ev s = Some s' →
  page_inv p h s →
  page_inv p (h ++ [ev]) s'.
Proof.
  destruct ev as [|t|t|t top]; simpl; intros Hs HI.
  - destruct (pop_due (timers s)) as [[tm rest]|] eqn:E; [|discriminate].
    simpl in Hs. inversion Hs; subst s'; clear Hs.
    apply page_inv_history; [reflexivity|].
    exact (page_inv_fire p h s tm rest E HI).
  - destruct (at_time t s) as [s0|] eqn:E; [|discriminate].
    apply at_time_Some in E. destruct E as [-> _].
    simpl in Hs. inversion Hs; subst s'; clear Hs.
    apply (page_inv_click p h (ClickOpenEnvelope t) (set_now t s) eq_refl).
    apply page_inv_set_now, HI.
  - destruct (at_time t s) as [s0|] eqn:E; [|discriminate].
    apply at_time_Some in E. destruct E as [-> _].
    simpl in Hs. inversion Hs; subst s'; clear Hs.
    apply (page_inv_click p h (ClickDocument t) (set_now t s) eq_refl).
    apply page_inv_set_now, HI.
  - destruct (at_time t s) as [s0|] eqn:E; [|discriminate].
    apply at_time_Some in E. destruct E as [-> _].
    simpl in Hs. apply page_inv_history; [reflexivity|].
    apply (page_inv_dispatch_scroll p h top (set_now t s) s' Hs).
    apply page_inv_set_now, HI.
Qed.

Lemma run_page_inv (p : page) (evs : list event) :
  ∀ (h : list event) (s s' : state),
    run evs s = Some s' →
    page_inv p h s →
    page_inv p (h ++ evs) s'.
Proof.
  induction evs as [|ev evs IH]; intros h s s' Hrun HI.
  - inversion Hrun; subst. rewrite app_nil_r. exact HI.
  - simpl in Hrun. destruct (step ev s) as [s1|] eqn:E; [|discriminate].
    simpl in Hrun.
    replace (h ++ ev :: evs) with ((h ++ [ev]) ++ evs)
      by (rewrite <- app_assoc; reflexivity).
    apply (IH _ s1 s' Hrun). exact (step_page_inv p h ev s s1 E HI).
Qed.

Lemma ready_page_inv (p : page) : page_inv p [] (ready p).
Proof.
  assert (Hb : is_Some (if page_bgm p then Some 0%nat else None)
               ↔ page_bgm p = true).
  { destruct (page_bgm p); split; try reflexivity.
    - intros _. eexists. reflexivity.
    - intros [x Hx]. discriminate Hx.
    - discriminate. }
  assert (Hu : [] = if page_bgm p then []
                    else replicate (clicks []) (Uncaught TypeError)).
  { destruct (page_bgm p); reflexivity. }
  assert (Ha : 0%nat = match page_cardContent p with
                       | Some _ => open_clicks []
                       | None => 0%nat
                       end).
  { destruct (page_cardContent p); reflexivity. }
  destruct (decide (length (page_texts p) = 0%nat)) as [H0|H0].
  - apply length_zero_iff_nil in H0.
    unfold ready, task. rewrite (initTextFading_empty p H0).
    split; cbn; try assumption; try reflexivity.
    + left. reflexivity.
    + right. reflexivity.
    + right. split; reflexivity.
  - rewrite (ready_nonempty p H0).
    split; cbn; try assumption; try reflexivity.
    + right. left. exists startupDelay, 0%nat. repeat split. lia.
    + left. reflexivity.
    + left. reflexivity.
Qed.

(** ** Uncaught exceptions *)

(** X4.  Along any run from page load: when the page has its audio
    element [#bgm], no handler and no timer callback throws; when the
    element is absent the exceptions thrown into the event loop are exactly
    one [TypeError] per click, from the audio listener, and nothing
    else. *)
Theorem uncaught_only_for_missing_bgm
  (p : page) (evs : list event) (s : state) :
  run evs (ready p) = Some s →
  (List.filter is_uncaught (log s)).*2
  = if page_bgm p then []
    else replicate (clicks evs) (Uncaught TypeError).
Proof.
  intros Hrun.
  exact (pi_uncaught p evs s (run_page_inv p evs [] (ready p) s Hrun
                                (ready_page_inv p))).
Qed.

Lemma uncaught_only_for_missing_bgm_witness :
  ∃ s, run [ClickDocument 10; Timeout; ClickOpenEnvelope 600] (ready page_bare)
       = Some s
    ∧ (List.filter is_uncaught (log s)).*2
      = [Uncaught TypeError; Uncaught TypeError].
Proof.
  assert (H : run [ClickDocument 10; Timeout; ClickOpenEnvelope 600]
                (ready page_bare) ≠ None) by (vm_compute; discriminate).
  destruct (run _ (ready page_bare)) as [s|] eqn:E; [|exfalso; exact (H eq_refl)].
  exists s. split; [reflexivity|].
  exact (uncaught_only_for_missing_bgm page_bare _ s E).
Defined.

(** ** Scroll listeners *)

(** X5.  Scroll listeners are never deduplicated.  Along any run from page
    load, the listeners attached to the card content together with the
    timers still waiting to attach one are as many as the clicks on the
    open control so far; on a page without the card-content element there
    is never either. *)
Theorem one_scroll_listener_per_click
  (p : page) (evs : list event) (s : state) :
  run evs (ready p) = Some s →
  (pending_arms s + scrollListeners s)%nat
  = match page_cardContent p with
    | Some _ => open_clicks evs
    | None => 0%nat
    end.
Proof.
  intros Hrun.
  exact (pi_arms p evs s (run_page_inv p evs [] (ready p) s Hrun
                            (ready_page_inv p))).
Qed.

Lemma one_scroll_listener_per_click_witness :
  ∃ s, run [ClickOpenEnvelope 10; ClickOpenEnvelope 20; Timeout; Timeout;
            Timeout] (ready page3) = Some s
    ∧ scrollListeners s = 2%nat.
Proof.
  assert (H : run [ClickOpenEnvelope 10; ClickOpenEnvelope 20; Timeout; Timeout;
                   Timeout] (ready page3) ≫= (λ s, Some (pending_arms s))
              = Some 0%nat) by (vm_compute; reflexivity).
  destruct (run _ (ready page3)) as [s|] eqn:E; [|discriminate H].
  exists s. split; [reflexivity|].
  pose proof (one_scroll_listener_per_click page3 _ s E) as H1.
  cbn [mbind option_bind] in H. injection H as H0. rewrite H0 in H1.
  exact H1.
Defined.

(** X6.  One scroll event sets one return timer per attached listener when
    it leaves the content at the bottom, and none otherwise; it changes
    nothing else but [scrollTop]. *)
Theorem scroll_event_sets_a_timer_per_listener
  (top : float) (s s' : state) (c : scroll_region) :
  cardContent s = Some c →
  dispatch_scroll top s = Some s' →
  timers s'
  = timers s
    ++ (if isAtBottom (scrolled_to top c)
        then replicate (scrollListeners s) (now s + returnDelay, ScrollToTop)
        else [])
  ∧ cardContent s' = Some (scrolled_to top c)
  ∧ scrollListeners s' = scrollListeners s
  ∧ log s' = log s.
Proof.
  intros Hc. unfold dispatch_scroll. rewrite Hc. simpl. intros [= <-].
  erewrite iter_scrollListener by reflexivity.
  destruct (isAtBottom (scrolled_to top c)); cbn.
  - repeat split.
  - rewrite app_nil_r. repeat split.
Qed.

Lemma scroll_event_sets_a_timer_per_listener_witness :
  ∃ s', dispatch_scroll 600 (set_scrollListeners 3 (ready page3)) = Some s'
    ∧ timers s'
      = [(500, ShowNextText); (1000, ScrollToTop); (1000, ScrollToTop);
         (1000, ScrollToTop)].
Proof.
  eexists. split; [reflexivity|].
  refine (proj1 (scroll_event_sets_a_timer_per_listener 600
                   (set_scrollListeners 3 (ready page3)) _ region0
                   eq_refl eq_refl)).
Defined.

(** ** The order of the reveal *)

(** X7.  In every state the event loop reaches from page load, between
    two tasks, the container is as the markup has it or has received
    [hidden] and nothing else, the envelope wrapper is as the markup has
    it or displayed, and it is displayed only in states where the
    container (if the page has one) carries the added [hidden].  (With no
    item both changes are made inside the one call of [initTextFading];
    their order inside that call is not observed here.) *)
Theorem envelope_shown_only_after_container_hidden
  (p : page) (evs : list event) (s : state) :
  run evs (ready p) = Some s →
  (openingSection s = page_openingSection p
   ∨ openingSection s = addClass "hidden" <$> page_openingSection p)
  ∧ (envelopeWrapper s = page_envelopeWrapper p
     ∨ (openingSection s = addClass "hidden" <$> page_openingSection p
        ∧ envelopeWrapper s = (λ _, "block") <$> page_envelopeWrapper p)).
Proof.
  intros Hrun.
  destruct (run_page_inv p evs [] (ready p) s Hrun (ready_page_inv p))
    as [_ _ I3 I4 _ _ _ _].
  split; [exact I3 | exact I4].
Qed.

Lemma envelope_shown_only_after_container_hidden_witness :
  ∃ s, drain 5 (ready page3) = Some s
    ∧ openingSection s = Some ["opening-section"; "hidden"]
    ∧ envelopeWrapper s = Some "block".
Proof.
  assert (H : envelopeWrapper <$> drain 5 (ready page3) = Some (Some "block"))
    by (vm_compute; reflexivity).
  assert (R : drain 5 (ready page3)
              = run [Timeout; Timeout; Timeout; Timeout; Timeout] (ready page3))
    by (vm_compute; reflexivity).
  destruct (drain 5 (ready page3)) as [s|] eqn:E; [|discriminate H].
  exists s. split; [reflexivity|].
  cbn [fmap option_fmap option_map] in H. injection H as He.
  destruct (envelope_shown_only_after_container_hidden page3 _ s (eq_sym R))
    as [_ [Hn|[Ho _]]].
  - rewrite He in Hn. discriminate Hn.
  - split; [exact Ho | exact He].
Defined.

(** ** The sequencer's chain of timers *)

(** X8.  The sequencer's timers form a chain that never forks: along any
    run from page load at most one of them is pending, and a pending
    [showNextText] always finds the cursor on an item still to show, so
    the guard of line 51 never fails when the function is called. *)
Theorem sequencer_chain_never_forks
  (p : page) (evs : list event) (s : state) :
  run evs (ready p) = Some s →
  (length (seq_timers s) ≤ 1)%nat
  ∧ length (texts s) = length (page_texts p)
  ∧ (∀ d, (d, ShowNextText) ∈ timers s →
       ∃ i, currentTextIndex s = Some i ∧ (i < length (texts s))%nat).
Proof.
  intros Hrun.
  destruct (run_page_inv p evs [] (ready p) s Hrun (ready_page_inv p))
    as [I1 I2 _ _ _ _ _ _].
  split; [exact (chain_length p s I2)|]. split; [exact I1|].
  intros d Hd.
  assert (Hin : In (d, ShowNextText) (seq_timers s)).
  { apply List.filter_In. split; [apply list_elem_of_In; exact Hd | reflexivity]. }
  destruct I2 as [H|[(d' & i & H & Hi & Hlt)|[(d' & H)|(d' & H & _)]]];
    rewrite H in Hin; simpl in Hin.
  - contradiction.
  - exists i. rewrite I1. split; assumption.
  - destruct Hin as [Hin|[]]. discriminate Hin.
  - destruct Hin as [Hin|[]]. discriminate Hin.
Qed.

Lemma sequencer_chain_never_forks_witness :
  ∃ s, run [ClickOpenEnvelope 10; Timeout; Timeout] (ready page3) = Some s
    ∧ (length (seq_timers s) ≤ 1)%nat.
Proof.
  assert (H : run [ClickOpenEnvelope 10; Timeout; Timeout] (ready page3) ≠ None)
    by (vm_compute; discriminate).
  destruct (run _ (ready page3)) as [s|] eqn:E; [|exfalso; exact (H eq_refl)].
  exists s. split; [reflexivity|].
  exact (proj1 (sequencer_chain_never_forks page3 _ s E)).
Defined.

(** ** A click on the open control when the audio element is missing *)

(** X9.  The failure of the audio listener does not undo or prevent the
    click handler: on a page without [#bgm] a click on the open control
    still opens the envelopes and cards and sets the arming timer, and the
    only trace of the failure is one uncaught [TypeError] in the log. *)
Theorem open_click_survives_missing_bgm (t : Z) (s s' : state) :
  bgm s = None →
  step (ClickOpenEnvelope t) s = Some s' →
  envelope s' = (λ l, addClass "open" (removeClass "tossing" l)) <$> envelope s
  ∧ card s' = addClass "open" <$> card s
  ∧ timers s'
    = timers s ++ match cardContent s with
                  | Some _ => [(t + armDelay, ArmScroll)]
                  | None => []
                  end
  ∧ log s'
    = log s ++ [(t, PreventDefault); (t, FadeOut 300); (t, Uncaught TypeError)].
Proof.
  intros Hb. simpl.
  destruct (at_time t s) as [s0|] eqn:E; [|discriminate].
  apply at_time_Some in E. destruct E as [-> _].
  simpl. intros [= <-].
  rewrite task_onOpenEnvelopeClick.
  change (cardContent (set_now t s)) with (cardContent s).
  destruct (cardContent s); rewrite task_onDocumentClick.
  - change (bgm (set_timers _ (opened (set_now t s)))) with (bgm s).
    rewrite Hb. cbn. rewrite <- app_assoc. repeat split.
  - change (bgm (opened (set_now t s))) with (bgm s).
    rewrite Hb. cbn. rewrite app_nil_r, <- app_assoc. repeat split.
Qed.

Lemma open_click_survives_missing_bgm_witness :
  ∃ s', step (ClickOpenEnvelope 100) (ready page_bare) = Some s'
    ∧ envelope s' = [["envelope"; "open"]]
    ∧ log s' = [(100, PreventDefault); (100, FadeOut 300);
                (100, Uncaught TypeError)].
Proof.
  assert (H : step (ClickOpenEnvelope 100) (ready page_bare) ≠ None)
    by (vm_compute; discriminate).
  destruct (step _ (ready page_bare)) as [s'|] eqn:E; [|exfalso; exact (H eq_refl)].
  exists s'. split; [reflexivity|].
  destruct (open_click_survives_missing_bgm 100 (ready page_bare) s' eq_refl E)
    as (H1 & _ & _ & H4).
  split; [exact H1 | exact H4].
Defined.

(** ** More on the letter-stagger decorator *)

(** Induction along the string iterator. *)
Lemma spread_induction (P : jsstring → Prop) :
  P [] →
  (∀ c, P [c]) →
  (∀ c d s, isLeadSurrogate c && isTrailSurrogate d = true →
            P s → P (c :: d :: s)) →
  (∀ c d s, isLeadSurrogate c && isTrailSurrogate d = false →
            P (d :: s) → P (c :: d :: s)) →
  ∀ s, P s.
Proof.
  intros H0 H1 H2 H3 s.
  assert (H : ∀ n (s : jsstring), (length s ≤ n)%nat → P s).
  { clear s. induction n as [|n IH]; intros s Hl.
    - destruct s; [exact H0 | simpl in Hl; lia].
    - destruct s as [|c [|d s]]; [exact H0 | exact (H1 c) |].
      simpl in Hl.
      destruct (isLeadSurrogate c && isTrailSurrogate d) eqn:E.
      + apply H2; [exact E|]. apply IH. lia.
      + apply H3; [exact E|]. apply IH. simpl. lia. }
  exact (H (length s) s (le_n _)).
Qed.

Lemma spread_cons2 (c d : codeunit) (s : jsstring) :
  spread (c :: d :: s)
  = if isLeadSurrogate c && isTrailSurrogate d
    then [c; d] :: spread s
    else [c] :: spread (d :: s).
Proof. reflexivity. Qed.

(** The iterator loses nothing. *)
Lemma concat_spread (s : jsstring) : concat (spread s) = s.
Proof.
  induction s as [|c|c d s E IH|c d s E IH] using spread_induction;
    try reflexivity; rewrite spread_cons2, E; cbn [concat app]; rewrite IH;
    reflexivity.
Qed.

(** What the iterator yields: one code unit, or a surrogate pair. *)
Lemma spread_shape (s : jsstring) (ch : jsstring) :
  ch ∈ spread s →
  (∃ u, ch = [u])
  ∨ (∃ hi lo, ch = [hi; lo]
              ∧ isLeadSurrogate hi = true ∧ isTrailSurrogate lo = true).
Proof.
  induction s as [|c|c d s E IH|c d s E IH] using spread_induction.
  - intros H. inversion H.
  - intros H. apply list_elem_of_singleton in H. left. eexists. exact H.
  - rewrite spread_cons2, E. intros H. apply elem_of_cons in H.
    destruct H as [->|H]; [|exact (IH H)].
    right. exists c, d. apply andb_true_iff in E. tauto.
  - rewrite spread_cons2, E. intros H. apply elem_of_cons in H.
    destruct H as [->|H]; [|exact (IH H)].
    left. eexists. reflexivity.
Qed.

Lemma streq_true (s t : jsstring) : streq s t = true ↔ s = t.
Proof. unfold streq. apply bool_decide_eq_true. Qed.

(** [&nbsp;] read back is the character wrapped, for what the iterator
    yields. *)
Lemma piece_text_safeChar (d : float) (ch : jsstring) :
  (length ch ≤ 2)%nat →
  piece_text (Stagger.Span d (Stagger.safeChar ch)) = ch.
Proof.
  intros Hl. unfold piece_text, Stagger.safeChar.
  destruct (streq ch (lit " ")) eqn:E.
  - apply streq_true in E. subst ch. reflexivity.
  - destruct (streq ch (lit "&nbsp;")) eqn:E2; [|reflexivity].
    apply streq_true in E2. subst ch. simpl in Hl. lia.
Qed.

Lemma spread_length (s : jsstring) (ch : jsstring) :
  ch ∈ spread s → (1 ≤ length ch ≤ 2)%nat.
Proof.
  intros H. destruct (spread_shape s ch H) as [[u ->]|(hi & lo & -> & _)];
    simpl; lia.
Qed.

Lemma staggered_text (k : nat) (cs : list jsstring) :
  (∀ ch, ch ∈ cs → (length ch ≤ 2)%nat) →
  concat (piece_text <$> Stagger.staggered k cs) = concat cs.
Proof.
  revert k. induction cs as [|c cs IH]; intros k H; [reflexivity|].
  cbn [Stagger.staggered fmap list_fmap concat].
  change (list_fmap _ _ piece_text (Stagger.staggered (S k) cs))
    with (piece_text <$> Stagger.staggered (S k) cs).
  rewrite piece_text_safeChar by (apply H; left).
  rewrite IH; [reflexivity|]. intros ch Hch. apply H. right. exact Hch.
Qed.

Lemma block_text (k : nat) (ls : list jsstring) :
  concat (piece_text <$> Stagger.block k ls) = concat ls.
Proof.
  revert k. induction ls as [|l ls IH]; intros k; [reflexivity|].
  cbn [Stagger.block]. rewrite fmap_app, concat_app.
  rewrite staggered_text, concat_spread.
  - simpl. f_equal. destruct ls as [|l' ls]; [reflexivity|].
    cbn [fmap list_fmap concat piece_text app]. apply IH.
  - intros ch H. apply (spread_length l ch H).
Qed.

(** X10.  Nothing is lost and nothing reordered: read in order, with
    [&nbsp;] as the space it stands for, the spans written for a paragraph
    spell its lines, that is the text without carriage returns, trimmed,
    without the line-break markers. *)
Theorem spans_spell_the_lines (innerHTML : jsstring) :
  concat (piece_text <$> Stagger.pieces innerHTML)
  = concat (split_br (trim (remove_cr innerHTML))).
Proof. rewrite pieces_block. apply block_text. Qed.

Lemma staggered_elem (k : nat) (cs : list jsstring) (d : float) (c : jsstring) :
  Stagger.Span d c ∈ Stagger.staggered k cs →
  ∃ ch, ch ∈ cs ∧ c = Stagger.safeChar ch.
Proof.
  revert k. induction cs as [|x cs IH]; intros k H; [inversion H|].
  simpl in H. apply elem_of_cons in H. destruct H as [H|H].
  - inversion H; subst. exists x. split; [left | reflexivity].
  - destruct (IH _ H) as (ch & Hch & ->). exists ch. split; [right; exact Hch | reflexivity].
Qed.

Lemma block_elem (k : nat) (ls : list jsstring) (d : float) (c : jsstring) :
  Stagger.Span d c ∈ Stagger.block k ls →
  ∃ l ch, l ∈ ls ∧ ch ∈ spread l ∧ c = Stagger.safeChar ch.
Proof.
  revert k. induction ls as [|l ls IH]; intros k H; [inversion H|].
  cbn [Stagger.block] in H. apply elem_of_app in H. destruct H as [H|H].
  - destruct (staggered_elem _ _ _ _ H) as (ch & Hch & ->).
    exists l, ch. split; [left|]. split; [exact Hch | reflexivity].
  - destruct ls as [|l' ls]; [inversion H|].
    apply elem_of_cons in H. destruct H as [H|H]; [discriminate H|].
    destruct (IH _ H) as (l0 & ch & Hl & Hch & ->).
    exists l0, ch. split; [right; exact Hl|]. split; [exact Hch | reflexivity].
Qed.

(** X11.  Every span holds one character: [&nbsp;] for a space, else one
    code unit that is not a space, or one surrogate pair.  No span holds a
    bare space, an empty text or more than one code point. *)
Theorem span_holds_one_character
  (innerHTML : jsstring) (d : float) (c : jsstring) :
  Stagger.Span d c ∈ Stagger.pieces innerHTML →
  c = lit "&nbsp;"
  ∨ (∃ u, c = [u] ∧ u ≠ 32%N)
  ∨ (∃ hi lo, c = [hi; lo]
              ∧ isLeadSurrogate hi = true ∧ isTrailSurrogate lo = true).
Proof.
  rewrite pieces_block. intros H.
  destruct (block_elem _ _ _ _ H) as (l & ch & _ & Hch & ->).
  unfold Stagger.safeChar. destruct (streq ch (lit " ")) eqn:E; [left; reflexivity|].
  right. destruct (spread_shape l ch Hch) as [[u ->]|(hi & lo & -> & Hhi & Hlo)].
  - left. exists u. split; [reflexivity|]. intros ->.
    assert (streq (lit " ") (lit " ") = true) by reflexivity.
    change [32%N] with (lit " ") in E. congruence.
  - right. exists hi, lo. repeat split; assumption.
Qed.

Lemma span_holds_one_character_witness :
  lit "&nbsp;" = lit "&nbsp;"
  ∨ (∃ u, lit "&nbsp;" = [u] ∧ u ≠ 32%N)
  ∨ (∃ hi lo, lit "&nbsp;" = [hi; lo]
              ∧ isLeadSurrogate hi = true ∧ isTrailSurrogate lo = true).
Proof.
  apply (span_holds_one_character (lit "a b") 0.05).
  vm_compute. right. left.
Defined.

(** *** Splitting *)

Lemma match_br_head (c : codeunit) (s : jsstring) :
  c ≠ 60%N → match_br (c :: s) = None.
Proof.
  intros Hc. destruct s as [|b [|r rest]]; try reflexivity.
  unfold match_br. rewrite (proj2 (N.eqb_neq c 60) Hc). reflexivity.
Qed.

Lemma split_br_from_plain (s cur : jsstring) :
  60%N ∉ s → split_br_from 0 cur s = [rev cur ++ s].
Proof.
  revert cur. induction s as [|c s IH]; intros cur H.
  - simpl. rewrite app_nil_r. reflexivity.
  - apply not_elem_of_cons in H. destruct H as [Hc Hs].
    cbn [split_br_from]. rewrite (match_br_head c s) by congruence.
    rewrite (IH (c :: cur) Hs). simpl. rewrite <- app_assoc. reflexivity.
Qed.

Lemma trimStart_elem (s : jsstring) (x : codeunit) :
  x ∈ trimStart s → x ∈ s.
Proof.
  induction s as [|c s IH]; simpl; [tauto|].
  destruct (isWhiteSpace c); [|tauto]. intros H. right. exact (IH H).
Qed.

Lemma trim_elem (s : jsstring) (x : codeunit) : x ∈ trim s → x ∈ s.
Proof.
  unfold trim, trimEnd. intros H.
  apply list_elem_of_In, in_rev, list_elem_of_In in H.
  apply trimStart_elem in H.
  apply list_elem_of_In, in_rev, list_elem_of_In in H.
  apply trimStart_elem in H. exact H.
Qed.

Lemma remove_cr_elem (s : jsstring) (x : codeunit) : x ∈ remove_cr s → x ∈ s.
Proof.
  unfold remove_cr. intros H. apply list_elem_of_In in H.
  apply List.filter_In in H. apply list_elem_of_In. tauto.
Qed.

(** X12.  A paragraph without the character [<] is one line: every
    character of its trimmed text is wrapped, with the running delays, and
    no line break is written. *)
Theorem text_without_markup_is_one_line
  (numberToString : float → jsstring) (innerHTML : jsstring) :
  60%N ∉ innerHTML →
  Stagger.pieces innerHTML
  = Stagger.staggered 0 (spread (trim (remove_cr innerHTML)))
  ∧ (Stagger.Br ∉ Stagger.pieces innerHTML)
  ∧ Stagger.decorate numberToString innerHTML
    = Stagger.render numberToString
        (Stagger.staggered 0 (spread (trim (remove_cr innerHTML)))).
Proof.
  intros H.
  assert (Hs : split_br (trim (remove_cr innerHTML))
               = [trim (remove_cr innerHTML)]).
  { unfold split_br. rewrite split_br_from_plain; [reflexivity|].
    intros Hin. apply H. apply remove_cr_elem, trim_elem, Hin. }
  assert (Hp : Stagger.pieces innerHTML
               = Stagger.staggered 0 (spread (trim (remove_cr innerHTML)))).
  { rewrite pieces_block, Hs. simpl. apply app_nil_r. }
  split; [exact Hp|]. split.
  - rewrite Hp. intros Hin. apply list_elem_of_In in Hin.
    assert (Hf : In Stagger.Br
                   (List.filter Stagger.is_span
                      (Stagger.staggered 0 (spread (trim (remove_cr innerHTML)))))).
    { rewrite filter_span_staggered. exact Hin. }
    apply List.filter_In in Hf. destruct Hf as [_ Hf]. discriminate Hf.
  - rewrite decorate_render, Hp. reflexivity.
Qed.

Lemma text_without_markup_is_one_line_witness :
  Stagger.pieces (lit " ab ")
  = Stagger.staggered 0 (spread (trim (remove_cr (lit " ab ")))).
Proof.
  refine (proj1 (text_without_markup_is_one_line (λ _, []) (lit " ab ") _)).
  intros H. apply list_elem_of_In in H. simpl in H.
  repeat (destruct H as [H|H]; [discriminate H|]). exact H.
Defined.

Lemma trimStart_blank (s : jsstring) :
  (∀ c, c ∈ s → isWhiteSpace c = true) → trimStart s = [].
Proof.
  induction s as [|c s IH]; intros H; [reflexivity|].
  simpl. rewrite (H c) by left. apply IH. intros x Hx. apply H. right. exact Hx.
Qed.

(** X13.  A paragraph of white space only, the empty one included, is
    emptied: nothing is wrapped and the text written is the empty
    string. *)
Theorem blank_paragraph_is_emptied
  (numberToString : float → jsstring) (innerHTML : jsstring) :
  (∀ c, c ∈ innerHTML → isWhiteSpace c = true) →
  Stagger.pieces innerHTML = []
  ∧ Stagger.decorate numberToString innerHTML = [].
Proof.
  intros H.
  assert (Ht : trim (remove_cr innerHTML) = []).
  { unfold trim. rewrite trimStart_blank; [reflexivity|].
    intros c Hc. apply H, remove_cr_elem, Hc. }
  assert (Hp : Stagger.pieces innerHTML = []).
  { rewrite pieces_block, Ht. reflexivity. }
  split; [exact Hp|]. rewrite decorate_render, Hp. reflexivity.
Qed.

Lemma blank_paragraph_is_emptied_witness :
  Stagger.decorate (λ _, lit "0") (lit "   ") = [].
Proof.
  refine (proj2 (blank_paragraph_is_emptied (λ _, lit "0") (lit "   ") _)).
  intros c H. apply list_elem_of_In in H. simpl in H.
  repeat (destruct H as [<-|H]; [reflexivity|]). destruct H.
Defined.

Lemma trimStart_app_cons (s t : jsstring) (c : codeunit) (r : jsstring) :
  trimStart s = c :: r → trimStart (s ++ t) = c :: r ++ t.
Proof.
  induction s as [|x s IH]; simpl; [discriminate|].
  destruct (isWhiteSpace x); [exact IH|]. intros [= -> ->]. reflexivity.
Qed.

Lemma trimStart_length (s : jsstring) : (length (trimStart s) ≤ length s)%nat.
Proof.
  induction s as [|x s IH]; simpl; [lia|].
  destruct (isWhiteSpace x); simpl; lia.
Qed.

(** A match sees only the code units it spans. *)
Lemma match_br_app (s t : jsstring) (m : nat) :
  match_br s = Some m → match_br (s ++ t) = Some m.
Proof.
  destruct s as [|lt [|b [|r rest]]]; try discriminate.
  cbn [app]. unfold match_br.
  destruct ((lt =? 60) && ((b =? 98) || (b =? 66)) && ((r =? 114) || (r =? 82)))%N;
    [|discriminate].
  destruct (trimStart rest) as [|c1 rest2] eqn:E; [discriminate|].
  rewrite (trimStart_app_cons rest t c1 rest2 E).
  pose proof (trimStart_length rest) as Hl. rewrite E in Hl. simpl in Hl.
  replace (length (rest ++ t) - length (c1 :: rest2 ++ t))%nat
    with (length rest - length (c1 :: rest2))%nat
    by (simpl; rewrite !length_app; lia).
  destruct (c1 =? 62)%N; [tauto|].
  destruct (c1 =? 47)%N; [|discriminate].
  destruct rest2 as [|c2 rest3]; [discriminate|]. simpl. tauto.
Qed.

Lemma split_br_from_no_marker (s : jsstring) :
  ∀ (skip : nat) (cur : jsstring),
    (skip ≠ 0%nat → cur = []) →
    (∀ i, (i < length cur)%nat → match_br (drop i (rev cur) ++ s) = None) →
    ∀ line, line ∈ split_br_from skip cur s →
            ∀ i, match_br (drop i line) = None.
Proof.
  assert (Hdone : ∀ (cur t : jsstring),
             (∀ i, (i < length cur)%nat → match_br (drop i (rev cur) ++ t) = None) →
             ∀ i, match_br (drop i (rev cur)) = None).
  { intros cur t H i. destruct (decide (i < length cur)%nat) as [Hi|Hi].
    - destruct (match_br (drop i (rev cur))) as [m|] eqn:E; [|reflexivity].
      specialize (H i Hi). rewrite (match_br_app _ t m E) in H. discriminate H.
    - rewrite drop_ge by (rewrite length_rev; lia). reflexivity. }
  induction s as [|c s IH]; intros skip cur Hskip Hcur line Hline i.
  - simpl in Hline. apply list_elem_of_singleton in Hline. subst line.
    exact (Hdone cur [] Hcur i).
  - cbn [split_br_from] in Hline. destruct skip as [|k].
    + destruct (match_br (c :: s)) as [m|] eqn:E.
      * apply elem_of_cons in Hline. destruct Hline as [->|Hline].
        { exact (Hdone cur (c :: s) Hcur i). }
        apply (IH (m - 1)%nat [] (λ _, eq_refl)); [|exact Hline].
        intros j Hj. simpl in Hj. lia.
      * apply (IH 0%nat (c :: cur)); [intros H; contradiction| |exact Hline].
        intros j Hj. simpl in Hj. simpl rev.
        destruct (decide (j < length cur)%nat) as [Hlt|Hge].
        { rewrite drop_app_le by (rewrite length_rev; lia).
          rewrite <- app_assoc. exact (Hcur j Hlt). }
        { assert (j = length cur) by lia. subst j.
          rewrite (drop_app_length' (rev cur) [c]) by (rewrite length_rev; reflexivity).
          exact E. }
    + rewrite (Hskip ltac:(discriminate)) in Hline.
      apply (IH k [] (λ _, eq_refl)); [|exact Hline].
      intros j Hj. simpl in Hj. lia.
Qed.

(** X14.  The split removes every line-break marker: no line has a
    position at which the pattern [<br\s*\/?>] matches, so no sequence of
    spans of one line spells a complete marker. *)
Theorem lines_hold_no_marker (s : jsstring) (line : jsstring) (i : nat) :
  line ∈ split_br s → match_br (drop i line) = None.
Proof.
  intros H.
  apply (split_br_from_no_marker s 0 [] (λ H0, eq_refl)); [|exact H].
  intros j Hj. simpl in Hj. lia.
Qed.

Lemma lines_hold_no_marker_witness :
  match_br (drop 1 (lit "a<b")) = None.
Proof.
  apply (lines_hold_no_marker (lit "a<b<br/>c") (lit "a<b") 1).
  vm_compute. left.
Defined.
